(** * image_generator_app: a shallow embedding of [app.py]

    The program is a FastAPI application with two handlers:
    [generate_image_endpoint] (POST /generate-image), which calls
    [generate_image], and [serve_image] (GET /image/{filename}).

    Conventions of the embedding.
    - A Python [str] is a Rocq [string] holding its UTF-8 bytes; [bytes] is
      [list byte].
    - The handlers run in a state-and-exception monad over a [World]: the
      file system, the working directory, the entropy read by [os.urandom],
      the remote HTTP server and the requests sent to it.
    - The file system maps normalised absolute paths to file contents;
      there are no symbolic links, so a path designates the file stored
      under [posixpath.abspath] of it.  Directories are implicit: a path is
      a directory exactly when a file is stored below it, so an empty
      directory is not represented.
    - The functions of the Python standard library that the handlers call
      ([str.endswith], [os.path.join], [os.path.abspath], [urllib.parse.quote],
      [uuid.uuid4]) are transcribed from CPython.  Console output ([print])
      is not modelled.
    - The world decides the failures the handlers can meet: no response
      from the remote server, an error status, and a body stream that
      breaks.  Writing to the storage directory always succeeds.  The call
      [FileResponse(...)] only builds the response object: the file is read
      by the framework once the handler has returned, and what the
      framework does then is reduced to [http_status] and
      [served_bytes]. *)

From Stdlib Require Import ZArith Lia List Ascii String.
From Stdlib.Strings Require Import Byte.
From stdpp Require Import gmap strings list pretty.
From Equations Require Import Equations.

(** ** Python strings *)

Module Str.

(** [s.startswith(p)] *)
Fixpoint startswith (s p : string) {struct p} : bool :=
  match p with
  | EmptyString => true
  | String c p' =>
      match s with
      | EmptyString => false
      | String d s' => if Ascii.eqb c d then startswith s' p' else false
      end
  end.

(** [s[n:]] *)
Fixpoint drop (n : nat) (s : string) : string :=
  match n, s with
  | O, _ => s
  | S _, EmptyString => EmptyString
  | S n', String _ s' => drop n' s'
  end.

(** [s.endswith(suf)] *)
Definition endswith (s suf : string) : bool :=
  if (String.length suf <=? String.length s)%nat
  then String.eqb (drop (String.length s - String.length suf) s) suf
  else false.

(** [s.split(sep)] for a one-character separator *)
Fixpoint split (sep : ascii) (s : string) : list string :=
  match s with
  | EmptyString => [EmptyString]
  | String c s' =>
      if Ascii.eqb c sep then EmptyString :: split sep s'
      else match split sep s' with
           | [] => [String c EmptyString]
           | h :: t => String c h :: t
           end
  end.

(** [sep.join(l)] *)
Fixpoint join (sep : string) (l : list string) : string :=
  match l with
  | [] => EmptyString
  | [x] => x
  | x :: rest => x +:+ sep +:+ join sep rest
  end.

(** [c * n] *)
Fixpoint times (c : string) (n : nat) : string :=
  match n with
  | O => EmptyString
  | S n' => c +:+ times c n'
  end.

(** [s[-1:] == c] for a character [c] *)
Fixpoint last_is (c : ascii) (s : string) : bool :=
  match s with
  | EmptyString => false
  | String d EmptyString => Ascii.eqb d c
  | String _ s' => last_is c s'
  end.

(** [c not in s] for a character [c] *)
Fixpoint lacks (c : ascii) (s : string) : bool :=
  match s with
  | EmptyString => true
  | String d s' => negb (Ascii.eqb d c) && lacks c s'
  end.

End Str.

(** ** [posixpath] *)

Module posixpath.

Definition sep : string := "/".

Definition isabs (p : string) : bool := Str.startswith p sep.

(** [os.path.join(a, b)] with one tail component *)
Definition join (a b : string) : string :=
  if Str.startswith b sep then b
  else if String.eqb a "" || Str.endswith a sep then a +:+ b
  else a +:+ sep +:+ b.

(** POSIX allows one or two initial slashes and treats three or more as
    one. *)
Definition initial_slashes (p : string) : nat :=
  if Str.startswith p sep then
    if Str.startswith p "//" && negb (Str.startswith p "///") then 2 else 1
  else 0.

(** The body of the loop of [normpath] over the components. *)
Definition step (init : nat) (new_comps : list string) (comp : string)
  : list string :=
  if String.eqb comp "" || String.eqb comp "." then new_comps
  else if negb (String.eqb comp "..")
          || (Nat.eqb init 0 && bool_decide (new_comps = []))
          || match last new_comps with
             | Some l => String.eqb l ".."
             | None => false
             end
       then new_comps ++ [comp]
       else removelast new_comps.

Definition normpath (path : string) : string :=
  if String.eqb path "" then "."
  else
    let init := initial_slashes path in
    let comps := fold_left (step init) (Str.split "/" path) [] in
    let path' := Str.times sep init +:+ Str.join sep comps in
    if String.eqb path' "" then "." else path'.

(** [os.path.abspath(path)] in a process whose working directory is
    [cwd]. *)
Definition abspath (cwd path : string) : string :=
  normpath (if isabs path then path else join cwd path).

End posixpath.

(** ** [urllib.parse] *)

Module urllib.

Definition between (lo hi : nat) (c : ascii) : bool :=
  (lo <=? nat_of_ascii c)%nat && (nat_of_ascii c <=? hi)%nat.

(** The characters [quote] never escapes: letters, digits and [_.-~]. *)
Definition always_safe (c : ascii) : bool :=
  between 65 90 c || between 97 122 c || between 48 57 c
  || Ascii.eqb c "_" || Ascii.eqb c "." || Ascii.eqb c "-" || Ascii.eqb c "~".

(** One digit of the format [%02X]. *)
Definition hex_upper (n : nat) : ascii :=
  if (n <? 10)%nat then ascii_of_nat (48 + n) else ascii_of_nat (55 + n).

Definition quote_byte (c : ascii) : string :=
  if always_safe c || Ascii.eqb c "/" then String c EmptyString
  else String "%" (String (hex_upper (nat_of_ascii c / 16))
                     (String (hex_upper (nat_of_ascii c mod 16)) EmptyString)).

(** [quote(s)] with the default [safe='/'], on the UTF-8 bytes of [s]. *)
Fixpoint quote (s : string) : string :=
  match s with
  | EmptyString => EmptyString
  | String c s' => quote_byte c +:+ quote s'
  end.

End urllib.

(** ** [uuid] *)

Module uuid.

Local Open Scope Z_scope.

(** [int.from_bytes(b, 'big')] *)
Definition int_from_bytes (b : list byte) : Z :=
  fold_left (fun acc x => Z.lor (Z.shiftl acc 8) (Z.of_N (Byte.to_N x))) b 0.

(** [UUID(bytes=b, version=4).int]: the variant bits are set to RFC 4122
    and the version number to 4. *)
Definition UUID (b : list byte) : Z :=
  let int := int_from_bytes b in
  let int := Z.land int (Z.lnot (Z.shiftl 0xc000 48)) in
  let int := Z.lor int (Z.shiftl 0x8000 48) in
  let int := Z.land int (Z.lnot (Z.shiftl 0xf000 64)) in
  Z.lor int (Z.shiftl 4 76).

Definition hex_lower (d : Z) : ascii :=
  if d <? 10 then ascii_of_nat (Z.to_nat (48 + d))
  else ascii_of_nat (Z.to_nat (87 + d)).

(** The [k] low hexadecimal digits of [n], most significant first:
    ['%032x' % n] is [hex_digits 32 n] when [0 <= n < 2^128]. *)
Fixpoint hex_digits (k : nat) (n : Z) : string :=
  match k with
  | O => EmptyString
  | S k' =>
      String (hex_lower (Z.land (Z.shiftr n (4 * Z.of_nat k')) 15))
             (hex_digits k' n)
  end.

(** [str(u)] *)
Definition str (int : Z) : string :=
  let hex := hex_digits 32 int in
  Str.join "-" [substring 0 8 hex; substring 8 4 hex; substring 12 4 hex;
                substring 16 4 hex; substring 20 12 hex].

Definition is_hex (c : ascii) : bool :=
  urllib.between 48 57 c || urllib.between 97 102 c.

Fixpoint all_hex (s : string) : bool :=
  match s with
  | EmptyString => true
  | String c s' => is_hex c && all_hex s'
  end.

(** The canonical textual form of a UUID: five groups of 8, 4, 4, 4 and
    12 lower-case hexadecimal digits, separated by hyphens. *)
Definition canonical (s : string) : bool :=
  match Str.split "-" s with
  | [a; b; c; d; e] =>
      Nat.eqb (String.length a) 8 && Nat.eqb (String.length b) 4
      && Nat.eqb (String.length c) 4 && Nat.eqb (String.length d) 4
      && Nat.eqb (String.length e) 12
      && all_hex a && all_hex b && all_hex c && all_hex d && all_hex e
  | _ => false
  end.

End uuid.

(** ** Python values, exceptions and the world *)

Inductive PyVal : Type :=
| PNone
| PBool (b : bool)
| PInt (z : Z)
| PStr (s : string).

Inductive exn : Type :=
| RequestException (msg : string)  (* requests.exceptions.RequestException and its subclasses *)
| HTTPException (status_code : Z) (detail : string)  (* fastapi.HTTPException *)
| OSError (msg : string).  (* any other exception, with its [str] *)

Definition is_RequestException (e : exn) : bool :=
  match e with RequestException _ => true | _ => false end.

(** [str(e)]; an [HTTPException] prints as its status and detail. *)
Definition exn_str (e : exn) : string :=
  match e with
  | RequestException msg => msg
  | HTTPException c d => pretty c +:+ ": " +:+ d
  | OSError msg => msg
  end.

(** What the remote server answers to a streamed GET: the status line, the
    bytes of the body that arrive, and the error that interrupts the
    stream after them, if any. *)
Record Response : Type := {
  status_code : Z;
  content : list byte;
  interrupted : option string
}.

Inductive GetResult : Type :=
| Unreachable (msg : string)  (* the transport fails: no response *)
| Responded (r : Response).

Definition Params : Type := list (string * PyVal).

Record World : Type := {
  fs : gmap string (list byte);  (* files, by normalised absolute path *)
  cwd_rel : string;  (* the working directory, below the root *)
  entropy : nat -> byte;  (* the bytes [os.urandom] will return *)
  drawn : nat;  (* how many of them were read *)
  remote : string -> Params -> GetResult;  (* the image API *)
  sent : list (string * Params)  (* the GET requests made so far *)
}.

Inductive Res (A : Type) : Type :=
| Val (a : A)
| Exc (e : exn).
Arguments Val {A} a.
Arguments Exc {A} e.

Definition M (A : Type) : Type := World -> Res A * World.

Definition ret {A} (a : A) : M A := fun w => (Val a, w).
Definition raise {A} (e : exn) : M A := fun w => (Exc e, w).
Definition bind {A B} (m : M A) (k : A -> M B) : M B :=
  fun w => match m w with
           | (Val a, w') => k a w'
           | (Exc e, w') => (Exc e, w')
           end.

(** [try: body except <class>: handler] *)
Definition try_except {A} (body : M A) (catches : exn -> bool)
    (handler : exn -> M A) : M A :=
  fun w => match body w with
           | (Val a, w') => (Val a, w')
           | (Exc e, w') => if catches e then handler e w' else (Exc e, w')
           end.

Notation "'let!' x ':=' m 'in' k" := (bind m (fun x => k))
  (at level 10, x name, m at level 100, k at level 200, only parsing).

(** [for x in l: body(x)] *)
Fixpoint for_each {A} (l : list A) (body : A -> M unit) : M unit :=
  match l with
  | [] => ret tt
  | x :: l' => let! _ := body x in for_each l' body
  end.

(** *** The operating system *)

Definition getcwd (w : World) : string := "/" +:+ cwd_rel w.

(** The key of the file a path designates. *)
Definition resolve (w : World) (path : string) : string :=
  posixpath.abspath (getcwd w) path.

Definition os_path_abspath (path : string) : M string :=
  fun w => (Val (posixpath.abspath (getcwd w) path), w).

Definition with_fs (f : gmap string (list byte) -> gmap string (list byte))
    (w : World) : World :=
  {| fs := f (fs w); cwd_rel := cwd_rel w; entropy := entropy w;
     drawn := drawn w; remote := remote w; sent := sent w |}.

(** [open(path, "wb")]: the file is created, or truncated. *)
Definition open_wb (path : string) : M unit :=
  fun w => (Val tt, with_fs (insert (resolve w path) []) w).

(** [f.write(chunk)] on the file opened at [path]. *)
Definition write (path : string) (chunk : list byte) : M unit :=
  fun w => (Val tt,
            with_fs (fun m => <[resolve w path :=
                                  default [] (m !! resolve w path) ++ chunk]> m) w).

(** The first component of [key] after [prefix], when there is one. *)
Definition entry_of_prefix (prefix key : string) : option string :=
  if Str.startswith key prefix then
    match Str.split "/" (Str.drop (String.length prefix) key) with
    | h :: _ => if String.eqb h "" then None else Some h
    | [] => None
    end
  else None.

(** The name of the entry of directory [dir] that holds the file [key]. *)
Definition entry_of (dir key : string) : option string :=
  entry_of_prefix (if Str.endswith dir "/" then dir else dir +:+ "/") key.

(** The names of the entries of directory [dir]. *)
Definition listdir (w : World) (dir : string) : list string :=
  remove_dups (omap (entry_of (resolve w dir)) (fst <$> map_to_list (fs w))).

(** [os.listdir(dir)] *)
Definition os_listdir (dir : string) : M (list string) :=
  fun w => (Val (listdir w dir), w).

(** [os.path.isdir(path)]: something is stored below the path. *)
Definition is_dir (w : World) (path : string) : bool :=
  bool_decide (listdir w path <> []).

(** [os.path.exists(path)]: the path is a file or a directory. *)
Definition path_exists (w : World) (path : string) : bool :=
  bool_decide (is_Some (fs w !! resolve w path)) || is_dir w path.

Definition os_path_exists (path : string) : M bool :=
  fun w => (Val (path_exists w path), w).

(** [os.urandom(n)] *)
Definition os_urandom (n : nat) : M (list byte) :=
  fun w => (Val (map (entropy w) (seq (drawn w) n)),
            {| fs := fs w; cwd_rel := cwd_rel w; entropy := entropy w;
               drawn := drawn w + n; remote := remote w; sent := sent w |}).

(** [uuid.uuid4()] *)
Definition uuid4 : M Z :=
  let! b := os_urandom 16 in ret (uuid.UUID b).

(** *** [requests] *)

(** [requests.get(url, params=params, stream=True)] *)
Definition requests_get (url : string) (params : Params) : M Response :=
  fun w =>
    let w' := {| fs := fs w; cwd_rel := cwd_rel w; entropy := entropy w;
                 drawn := drawn w; remote := remote w;
                 sent := sent w ++ [(url, params)] |} in
    match remote w url params with
    | Unreachable msg => (Exc (RequestException msg), w')
    | Responded r => (Val r, w')
    end.

(** [response.raise_for_status()]: an [HTTPError], which is a
    [RequestException], for the 4xx and 5xx codes. *)
Definition raise_for_status (r : Response) : M unit :=
  if ((400 <=? status_code r) && (status_code r <? 600))%Z
  then raise (RequestException "HTTPError")
  else ret tt.

(** The chunks [response.iter_content(chunk_size)] yields when the whole
    of [l] arrives. *)
Equations? chunks (chunk_size : nat) (l : list byte) : list (list byte)
  by wf (length l) lt :=
  chunks _ [] := [];
  chunks 0 l := [l];
  chunks (S n) (x :: l) := take (S n) (x :: l) :: chunks (S n) (drop (S n) (x :: l)).
Proof. simpl. rewrite length_drop. lia. Qed.

(** [for chunk in response.iter_content(chunk_size): body(chunk)]: the
    chunks of the bytes that arrive, then the error of an interrupted
    stream. *)
Definition for_iter_content (r : Response) (chunk_size : nat)
    (body : list byte -> M unit) : M unit :=
  let! _ := for_each (chunks chunk_size (content r)) body in
  match interrupted r with
  | Some msg => raise (RequestException msg)
  | None => ret tt
  end.

(** [response.text]: reading it takes the rest of the streamed body, and
    meets the error of an interrupted stream. *)
Definition response_text (r : Response) : M (list byte) :=
  match interrupted r with
  | Some msg => raise (RequestException msg)
  | None => ret (content r)
  end.

(** *** [fastapi] *)

Record FileResponse_ : Type := {
  path : string;
  media_type : string;
  filename : string
}.

(** [FileResponse(path, media_type=..., filename=...)]: the constructor
    records its arguments and touches no file. *)
Definition FileResponse (path media_type filename : string) : M FileResponse_ :=
  ret {| path := path; media_type := media_type; filename := filename |}.

(** The status of the outcome of a handler: 200, the status a returned
    response object carries, for a value, the code of an [HTTPException],
    500 for any other exception. *)
Definition http_status {A} (r : Res A) : Z :=
  match r with
  | Val _ => 200
  | Exc (HTTPException c _) => c
  | Exc _ => 500
  end.

(** The bytes stored at the path of a [FileResponse], which the framework
    reads and sends when nothing fails while it does. *)
Definition served_bytes (w : World) (r : FileResponse_) : option (list byte) :=
  fs w !! resolve w (path r).

(** ** [app.py] *)

(** The built-in [repr] on strings, which [str] of a list applies to its
    elements. *)
Class Builtins : Type := { repr : string -> string }.

(** [str(l)] for a list of strings *)
Definition str_of_list `{Builtins} (l : list string) : string :=
  "[" +:+ Str.join ", " (map repr l) +:+ "]".

Record ImageRequest : Type := {
  prompt : string;
  width : Z;
  height : Z;
  enhance : bool;
  steps : Z
}.

Definition generated_folder : string := "generated".

Definition enhanced_prompt_of (prompt : string) : string :=
  prompt +:+ ", "
  +:+ "high resolution, highly detailed, sharp focus, "
  +:+ "professional photography, cinematic lighting, "
  +:+ "8k uhd, ray tracing, ambient lighting".

Definition negative_prompt : string :=
  "blurry, low quality, low resolution, "
  +:+ "watermark, signature, oversaturated, "
  +:+ "distorted, deformed, pixelated".

Definition base_url : string := "https://image.pollinations.ai/prompt".

Definition url_of (prompt : string) : string :=
  let encoded_prompt := urllib.quote (enhanced_prompt_of prompt) in
  base_url +:+ "/" +:+ encoded_prompt.

Definition params_of (model width height steps cfg_scale enhance : PyVal) : Params :=
  [("width", width);
   ("height", height);
   ("model", model);
   ("steps", steps);
   ("cfg_scale", cfg_scale);
   ("sampler", PStr "DPM++ SDE Karras");
   ("enhance", enhance);
   ("nologo", PBool true);
   ("negative_prompt", PStr negative_prompt);
   ("upscale", PBool true);
   ("upscale_amount", PStr "2")].

(** [generate_image] (lines 31-100).  The derived prompt, the URL and the
    query parameters are [enhanced_prompt_of], [url_of] and [params_of]. *)
Definition generate_image (prompt : string)
    (model seed width height steps cfg_scale nologo private enhance safe : PyVal)
  : M (option string) :=
  let! u := uuid4 in
  let unique_filename := uuid.str u +:+ ".jpg" in
  let file_path := posixpath.join generated_folder unique_filename in
  let url := url_of prompt in
  let params := params_of model width height steps cfg_scale enhance in
  let! attempt :=
    try_except
      (let! response := requests_get url params in
       let! _ := raise_for_status response in
       ret (Some response))
      is_RequestException
      (fun e => ret None) in
  match attempt with
  | None => ret None
  | Some response =>
      if (status_code response =? 200)%Z then
        let! _ := open_wb file_path in
        let! _ := for_iter_content response (Pos.to_nat 8192) (write file_path) in
        ret (Some unique_filename)
      else
        let! _ := response_text response in
        ret None
  end.

(** The JSON object of a successful generation. *)
Definition Json : Type := list (string * string).

(** [generate_image_endpoint], POST /generate-image (lines 103-118) *)
Definition generate_image_endpoint (request : ImageRequest) : M Json :=
  let! filename :=
    generate_image (prompt request) (PStr "flux-pro") PNone
      (PInt (width request)) (PInt (height request)) (PInt (steps request))
      (PInt 9) (PBool true) PNone (PBool (enhance request)) (PBool true) in
  match filename with
  | Some filename =>
      if String.eqb filename "" then
        raise (HTTPException 500 "Image generation failed")
      else ret [("file_path", "/image/" +:+ filename)]
  | None => raise (HTTPException 500 "Image generation failed")
  end.

(** [serve_image], GET /image/{filename} (lines 120-148) *)
Definition serve_image `{Builtins} (filename : string) : M FileResponse_ :=
  let filename :=
    if negb (Str.endswith filename ".jpg") then filename +:+ ".jpg"
    else filename in
  let file_path := posixpath.join generated_folder filename in
  let! abs_file_path := os_path_abspath file_path in
  let! found := os_path_exists abs_file_path in
  if negb found then
    let! names := os_listdir generated_folder in
    raise (HTTPException 404
             ("Image not found. Available files: " +:+ str_of_list names))
  else
    try_except
      (FileResponse abs_file_path "image/jpeg" filename)
      (fun _ => true)
      (fun e => raise (HTTPException 500 ("Error serving file: " +:+ exn_str e))).

(** *** Sample worlds *)

(** [repr] on a string of printable ASCII characters other than quotes and
    backslashes. *)
Definition plain_repr : Builtins := {| repr := fun s => "'" +:+ s +:+ "'" |}.

Definition jpeg_bytes : list byte := [xff; xd8; xff; xe0; x00; x10].

Definition ok_response : Response :=
  {| status_code := 200; content := jpeg_bytes; interrupted := None |}.

Definition sample_world (answer : GetResult) : World :=
  {| fs := {[ "/srv/app/generated/old.jpg" := [x01; x02] ]};
     cwd_rel := "srv/app";
     entropy := fun i => match Byte.of_nat (17 * i) with Some b => b | None => x00 end;
     drawn := 0;
     remote := fun _ _ => answer;
     sent := [] |}.

Definition bicycle : ImageRequest :=
  {| prompt := "a red bicycle"; width := 512; height := 512;
     enhance := true; steps := 20 |}.

(** The world after one successful generation, and the name of the file
    it made. *)
Definition sample_generated : World :=
  snd (generate_image_endpoint bicycle (sample_world (Responded ok_response))).

Definition sample_name : string := "00112233-4455-4677-8899-aabbccddeeff.jpg".

(** *** Vocabulary of the statements *)

(** A component that [normpath] keeps as it is. *)
Definition clean (c : string) : Prop :=
  Str.lacks "/" c = true /\ c <> "" /\ c <> "." /\ c <> "..".

(** The file name [serve_image] looks for. *)
Definition jpg_name (filename : string) : string :=
  if negb (Str.endswith filename ".jpg") then filename +:+ ".jpg" else filename.

(** The UUID the next call of [uuid4] makes, and the file name
    [generate_image] derives from it. *)
Definition next_uuid (w : World) : Z :=
  uuid.UUID (map (entropy w) (seq (drawn w) 16)).

Definition next_filename (w : World) : string :=
  uuid.str (next_uuid w) +:+ ".jpg".

(** The world once [generate_image] has drawn its UUID and sent its
    request. *)
Definition after_request (w : World) (url : string) (params : Params) : World :=
  {| fs := fs w; cwd_rel := cwd_rel w; entropy := entropy w;
     drawn := drawn w + 16; remote := remote w;
     sent := sent w ++ [(url, params)] |}.

(** The query parameters of the call the endpoint makes. *)
Definition endpoint_params (request : ImageRequest) : Params :=
  params_of (PStr "flux-pro") (PInt (width request)) (PInt (height request))
    (PInt (steps request)) (PInt 9) (PBool (enhance request)).

(** The path of a stored image. *)
Definition stored_path (name : string) : string :=
  posixpath.join generated_folder name.

(** *** Vocabulary of the further properties *)

(** The value of a hexadecimal digit of [%XY]. *)
Definition unhex (c : ascii) : nat :=
  if (nat_of_ascii c <? 58)%nat then nat_of_ascii c - 48 else nat_of_ascii c - 55.

(** The decoding that undoes [urllib.quote]. *)
Fixpoint unquote (s : string) : string :=
  match s with
  | EmptyString => EmptyString
  | String c rest =>
      if Ascii.eqb c "%" then
        match rest with
        | String h (String l rest') =>
            String (ascii_of_nat (16 * unhex h + unhex l)) (unquote rest')
        | _ => String c (unquote rest)
        end
      else String c (unquote rest)
  end.

(** Every character of [s] satisfies [p]. *)
Fixpoint all_chars (p : ascii -> bool) (s : string) : bool :=
  match s with
  | EmptyString => true
  | String c s' => p c && all_chars p s'
  end.

(** The characters of the URLs the program requests: unreserved
    characters, the slash, the colon of the scheme and the percent sign of
    an escape. *)
Definition url_char (c : ascii) : bool :=
  urllib.always_safe c || Ascii.eqb c "/" || Ascii.eqb c ":" || Ascii.eqb c "%".

(** A character of the text of a UUID: a hexadecimal digit or a hyphen. *)
Definition uuid_char (c : ascii) : bool := uuid.is_hex c || Ascii.eqb c "-".

(** A directory path, ready to take the name of an entry. *)
Definition dir_prefix (dir : string) : string :=
  if Str.endswith dir "/" then dir else dir +:+ "/".

(** A response whose stream breaks after two bytes. *)
Definition broken_response : Response :=
  {| status_code := 200; content := [xff; xd8];
     interrupted := Some "Connection broken" |}.

(** A world with a file outside the storage directory. *)
Definition outside_world : World :=
  {| fs := {[ "/etc/secret.jpg" := [x2a] ]};
     cwd_rel := "srv/app";
     entropy := fun _ => x00;
     drawn := 0;
     remote := fun _ _ => Unreachable "offline";
     sent := [] |}.

(** A world whose storage directory holds a directory named like an
    image. *)
Definition directory_world : World :=
  {| fs := {[ "/srv/app/generated/dir.jpg/inner.txt" := [x2a] ]};
     cwd_rel := "srv/app";
     entropy := fun _ => x00;
     drawn := 0;
     remote := fun _ _ => Unreachable "offline";
     sent := [] |}.

(** * Properties *)

(** ** The library functions on sample inputs *)

Section Examples.

Example normpath_dots : posixpath.normpath "/a/./b//../c/" = "/a/c".
Proof. vm_compute. reflexivity. Qed.

Example normpath_two_slashes : posixpath.normpath "//a/../../b" = "//b".
Proof. vm_compute. reflexivity. Qed.

Example normpath_three_slashes : posixpath.normpath "///a" = "/a".
Proof. vm_compute. reflexivity. Qed.

Example normpath_relative : posixpath.normpath "a/../../b" = "../b".
Proof. vm_compute. reflexivity. Qed.

Example abspath_relative :
  posixpath.abspath "/srv/app" "generated/x.jpg" = "/srv/app/generated/x.jpg".
Proof. vm_compute. reflexivity. Qed.

Example endswith_jpg : Str.endswith "abc.jpg" ".jpg" = true.
Proof. vm_compute. reflexivity. Qed.

Example endswith_short : Str.endswith "jpg" ".jpg" = false.
Proof. vm_compute. reflexivity. Qed.

Example quote_bicycle :
  urllib.quote "a red bicycle, 8k/uhd~" = "a%20red%20bicycle%2C%208k/uhd~".
Proof. vm_compute. reflexivity. Qed.

Example uuid4_sample :
  uuid.str (next_uuid (sample_world (Responded ok_response)))
  = "00112233-4455-4677-8899-aabbccddeeff".
Proof. vm_compute. reflexivity. Qed.

Example chunks_sample :
  chunks 4 jpeg_bytes = [[xff; xd8; xff; xe0]; [x00; x10]].
Proof. vm_compute. reflexivity. Qed.

Example generate_sample :
  fst (generate_image_endpoint bicycle (sample_world (Responded ok_response)))
  = Val [("file_path", "/image/" +:+ sample_name)].
Proof. vm_compute. reflexivity. Qed.

End Examples.

(** ** Strings *)

Section StrFacts.

Lemma app_cons (c : ascii) (s t : string) :
  String c s +:+ t = String c (s +:+ t).
Proof. reflexivity. Qed.

Lemma app_empty_l (t : string) : "" +:+ t = t.
Proof. reflexivity. Qed.

Lemma app_empty_r (s : string) : s +:+ "" = s.
Proof. induction s as [|c s IH]; [reflexivity|]. now rewrite app_cons, IH. Qed.

Lemma app_assoc_str (a b c : string) : (a +:+ b) +:+ c = a +:+ b +:+ c.
Proof.
  induction a as [|x a IH]; [reflexivity|]. now rewrite !app_cons, IH.
Qed.

Lemma length_app_str (a b : string) :
  String.length (a +:+ b) = String.length a + String.length b.
Proof.
  induction a as [|x a IH]; [reflexivity|]. rewrite app_cons. simpl. now rewrite IH.
Qed.

Lemma drop_app (a b : string) : Str.drop (String.length a) (a +:+ b) = b.
Proof. induction a as [|x a IH]; [now destruct b|]. now rewrite app_cons. Qed.

Lemma startswith_app (p s : string) : Str.startswith (p +:+ s) p = true.
Proof.
  induction p as [|c p IH]; [reflexivity|].
  rewrite app_cons. simpl. now rewrite Ascii.eqb_refl.
Qed.

(** A string ends with the suffix appended to it. *)
Lemma endswith_app (s suf : string) : Str.endswith (s +:+ suf) suf = true.
Proof.
  unfold Str.endswith. rewrite length_app_str.
  replace (String.length s + String.length suf - String.length suf)
    with (String.length s) by lia.
  rewrite drop_app, String.eqb_refl.
  destruct (Nat.leb_spec (String.length suf) (String.length s + String.length suf));
    [reflexivity | lia].
Qed.

Lemma lacks_app (c : ascii) (a b : string) :
  Str.lacks c (a +:+ b) = Str.lacks c a && Str.lacks c b.
Proof.
  induction a as [|x a IH]; [reflexivity|].
  rewrite app_cons. simpl. rewrite IH. now rewrite andb_assoc.
Qed.

Lemma split_nonempty (c : ascii) (s : string) : Str.split c s <> [].
Proof.
  induction s as [|x s IH]; simpl; [discriminate|].
  destruct (Ascii.eqb x c); [discriminate|].
  destruct (Str.split c s); [contradiction | discriminate].
Qed.

(** Splitting at a character the string lacks gives the string. *)
Lemma split_lacks (c : ascii) (s : string) :
  Str.lacks c s = true -> Str.split c s = [s].
Proof.
  induction s as [|x s IH]; simpl; [reflexivity|].
  intros [Hx Hs]%andb_prop. apply negb_true_iff in Hx. rewrite Hx.
  now rewrite (IH Hs).
Qed.

Lemma split_app_sep (c : ascii) (a b : string) :
  Str.lacks c a = true ->
  Str.split c (a +:+ String c b) = a :: Str.split c b.
Proof.
  induction a as [|x a IH]; intros Ha.
  - rewrite app_empty_l. simpl. now rewrite Ascii.eqb_refl.
  - simpl in Ha. apply andb_prop in Ha as [Hx Ha]. apply negb_true_iff in Hx.
    rewrite app_cons. simpl. rewrite Hx. now rewrite (IH Ha).
Qed.

(** The components of a split lack the separator. *)
Lemma split_comps_lack (c : ascii) (s : string) :
  Forall (fun x => Str.lacks c x = true) (Str.split c s).
Proof.
  induction s as [|x s IH]; simpl.
  - repeat constructor.
  - destruct (Ascii.eqb x c) eqn:Hx.
    + constructor; [reflexivity | exact IH].
    + destruct (Str.split c s) as [|h t]; [repeat constructor; simpl; now rewrite Hx|].
      inversion IH as [|? ? Hh Ht]; subst. constructor; [|exact Ht].
      simpl. now rewrite Hx, Hh.
Qed.

(** [split] undoes [join] on components that lack the separator. *)
Lemma split_join (c : ascii) (l : list string) :
  l <> [] -> Forall (fun x => Str.lacks c x = true) l ->
  Str.split c (Str.join (String c "") l) = l.
Proof.
  induction l as [|x l IH]; [congruence|]. intros _ Hl.
  inversion Hl as [|? ? Hx Hl']; subst.
  destruct l as [|y l].
  - simpl. now apply split_lacks.
  - change (Str.join (String c "") (x :: y :: l))
      with (x +:+ String c "" +:+ Str.join (String c "") (y :: l)).
    rewrite app_cons, app_empty_l, split_app_sep by assumption.
    rewrite IH; [reflexivity | discriminate | assumption].
Qed.

End StrFacts.

(** ** Paths *)

Section PathFacts.

Lemma step_clean (init : nat) (acc : list string) (c : string) :
  clean c -> posixpath.step init acc c = acc ++ [c].
Proof.
  intros (_ & H1 & H2 & H3). unfold posixpath.step.
  apply String.eqb_neq in H1, H2, H3. now rewrite H1, H2, H3.
Qed.

Lemma fold_step_clean (init : nat) (comps acc : list string) :
  Forall clean comps ->
  fold_left (posixpath.step init) comps acc = acc ++ comps.
Proof.
  revert acc. induction comps as [|c comps IH]; intros acc Hc; simpl.
  - now rewrite app_nil_r.
  - inversion Hc as [|? ? H1 H2]; subst.
    rewrite step_clean by assumption. rewrite IH by assumption.
    now rewrite <- app_assoc.
Qed.

Lemma Forall_removelast {A} (P : A -> Prop) (l : list A) :
  Forall P l -> Forall P (removelast l).
Proof.
  induction l as [|x l IH]; intros H; simpl; [constructor|].
  inversion H; subst. destruct l; [constructor|]. constructor; auto.
Qed.

Lemma last_Forall {A} (P : A -> Prop) (l : list A) (x : A) :
  Forall P l -> last l = Some x -> P x.
Proof.
  intros Hl Hx. apply last_Some in Hx as [l' ->].
  apply Forall_app in Hl as [_ Hl]. now inversion Hl.
Qed.

(** Below an absolute root the loop of [normpath] keeps only clean
    components: [..] pops one, or is dropped at the root. *)
Lemma step_abs_clean (init : nat) (acc : list string) (c : string) :
  init <> 0 -> Str.lacks "/" c = true -> Forall clean acc ->
  Forall clean (posixpath.step init acc c).
Proof.
  intros Hi Hc Hacc. unfold posixpath.step.
  destruct (String.eqb_spec c ""); [exact Hacc|].
  destruct (String.eqb_spec c "."); [exact Hacc|].
  destruct (String.eqb_spec c "..") as [->|Hdd]; simpl.
  - apply Nat.eqb_neq in Hi. rewrite Hi. simpl.
    destruct (last acc) as [l|] eqn:Hl.
    + destruct (String.eqb_spec l "..") as [->|_].
      * apply (last_Forall _ _ _ Hacc) in Hl. now destruct Hl as (_ & _ & _ & []).
      * now apply Forall_removelast.
    + now apply Forall_removelast.
  - apply Forall_app. split; [exact Hacc|]. repeat constructor; assumption.
Qed.

Lemma fold_step_abs_clean (init : nat) (comps acc : list string) :
  init <> 0 -> Forall (fun x => Str.lacks "/" x = true) comps ->
  Forall clean acc ->
  Forall clean (fold_left (posixpath.step init) comps acc).
Proof.
  intros Hi. revert acc. induction comps as [|c comps IH]; intros acc Hc Hacc.
  - exact Hacc.
  - inversion Hc; subst. simpl. apply IH; [assumption|].
    now apply step_abs_clean.
Qed.

Lemma join_clean_no_slash (l : list string) :
  Forall clean l -> Str.startswith (Str.join "/" l) "/" = false.
Proof.
  intros Hl. destruct l as [|x l]; [reflexivity|].
  inversion Hl as [|? ? (Hx & Hne & _) _]; subst.
  destruct x as [|c x]; [congruence|].
  simpl in Hx. apply andb_prop in Hx as [Hc _]. apply negb_true_iff in Hc.
  rewrite Ascii.eqb_sym in Hc.
  destruct l; cbn [Str.join]; rewrite ?app_cons; cbn [Str.startswith];
    now rewrite Hc.
Qed.

Lemma split_join_clean (l : list string) :
  Forall clean l ->
  fold_left (posixpath.step 1) (Str.split "/" (Str.join "/" l)) [] = l
  /\ fold_left (posixpath.step 2) (Str.split "/" (Str.join "/" l)) [] = l.
Proof.
  intros Hl. destruct l as [|x l]; [split; reflexivity|].
  rewrite (split_join "/" (x :: l)); [| discriminate |].
  - now rewrite !fold_step_clean.
  - eapply Forall_impl; [exact Hl|]. now intros ? [? _].
Qed.

Lemma startswith_cons (c : ascii) (s p : string) :
  Str.startswith (String c s) (String c p) = Str.startswith s p.
Proof. cbn [Str.startswith]. now rewrite Ascii.eqb_refl. Qed.

Lemma initial_slashes_one (s : string) :
  Str.startswith s "/" = false ->
  posixpath.initial_slashes (String "/" s) = 1.
Proof.
  intros Hs. unfold posixpath.initial_slashes, posixpath.sep.
  rewrite !startswith_cons, Hs. reflexivity.
Qed.

Lemma initial_slashes_two (s : string) :
  Str.startswith s "/" = false ->
  posixpath.initial_slashes (String "/" (String "/" s)) = 2.
Proof.
  intros Hs. unfold posixpath.initial_slashes, posixpath.sep.
  rewrite !startswith_cons, Hs. reflexivity.
Qed.

Lemma split_sep_cons (s : string) :
  Str.split "/" (String "/" s) = "" :: Str.split "/" s.
Proof. reflexivity. Qed.

(** [normpath] leaves a normalised absolute path as it is. *)
Lemma normpath_fixed (s : nat) (l : list string) :
  s = 1 \/ s = 2 -> Forall clean l ->
  posixpath.normpath (Str.times "/" s +:+ Str.join "/" l)
  = Str.times "/" s +:+ Str.join "/" l.
Proof.
  intros Hs Hl. pose proof (join_clean_no_slash l Hl) as Hj.
  destruct (split_join_clean l Hl) as [H1 H2].
  unfold posixpath.normpath, posixpath.sep.
  destruct Hs as [-> | ->].
  - change (Str.times "/" 1 +:+ Str.join "/" l) with (String "/" (Str.join "/" l)).
    cbn [String.eqb].
    rewrite (initial_slashes_one _ Hj), split_sep_cons. cbn [fold_left].
    change (posixpath.step 1 [] "") with (@nil string). rewrite H1.
    reflexivity.
  - change (Str.times "/" 2 +:+ Str.join "/" l)
      with (String "/" (String "/" (Str.join "/" l))).
    cbn [String.eqb].
    rewrite (initial_slashes_two _ Hj), !split_sep_cons. cbn [fold_left].
    do 2 change (posixpath.step 2 [] "") with (@nil string). rewrite H2.
    reflexivity.
Qed.

Lemma initial_slashes_abs (p : string) :
  posixpath.isabs p = true ->
  posixpath.initial_slashes p = 1 \/ posixpath.initial_slashes p = 2.
Proof.
  unfold posixpath.isabs, posixpath.initial_slashes. intros ->.
  destruct (_ && _); auto.
Qed.

(** The normal form of an absolute path: one or two slashes, then clean
    components. *)
Lemma normpath_abs_shape (p : string) :
  posixpath.isabs p = true ->
  exists s l, (s = 1 \/ s = 2) /\ Forall clean l
              /\ posixpath.normpath p = Str.times "/" s +:+ Str.join "/" l.
Proof.
  intros Hp. pose proof (initial_slashes_abs p Hp) as Hs.
  exists (posixpath.initial_slashes p),
    (fold_left (posixpath.step (posixpath.initial_slashes p)) (Str.split "/" p) []).
  split; [exact Hs|]. split.
  - apply fold_step_abs_clean; [lia | apply split_comps_lack | constructor].
  - unfold posixpath.normpath.
    destruct p as [|c p]; [discriminate|]. cbn [String.eqb].
    destruct Hs as [-> | ->]; reflexivity.
Qed.

Lemma normpath_abs_isabs (p : string) :
  posixpath.isabs p = true -> posixpath.isabs (posixpath.normpath p) = true.
Proof.
  intros (s & l & Hs & _ & ->)%normpath_abs_shape.
  destruct Hs as [-> | ->]; reflexivity.
Qed.

Lemma normpath_idem (p : string) :
  posixpath.isabs p = true ->
  posixpath.normpath (posixpath.normpath p) = posixpath.normpath p.
Proof.
  intros (s & l & Hs & Hl & ->)%normpath_abs_shape. now apply normpath_fixed.
Qed.

Lemma join_abs (a b : string) :
  posixpath.isabs a = true -> posixpath.isabs (posixpath.join a b) = true.
Proof.
  unfold posixpath.isabs, posixpath.join. intros Ha.
  destruct (Str.startswith b posixpath.sep) eqn:Hb; [exact Hb|].
  destruct a as [|c a]; [discriminate|].
  destruct (_ || _); rewrite app_cons; exact Ha.
Qed.

(** [abspath] is idempotent when the working directory is absolute. *)
Lemma abspath_idem (cwd p : string) :
  posixpath.isabs cwd = true ->
  posixpath.abspath cwd (posixpath.abspath cwd p) = posixpath.abspath cwd p.
Proof.
  intros Hc. unfold posixpath.abspath.
  assert (Hq : posixpath.isabs (if posixpath.isabs p then p else posixpath.join cwd p) = true).
  { destruct (posixpath.isabs p) eqn:Hp; [exact Hp | now apply join_abs]. }
  rewrite (normpath_abs_isabs _ Hq). now apply normpath_idem.
Qed.

End PathFacts.

(** ** URL quoting *)

Section QuoteFacts.

Lemma quote_app (a b : string) :
  urllib.quote (a +:+ b) = urllib.quote a +:+ urllib.quote b.
Proof.
  induction a as [|c a IH]; [reflexivity|].
  rewrite app_cons. cbn [urllib.quote]. now rewrite IH, app_assoc_str.
Qed.

Lemma quote_app_neq (a b : string) :
  b <> "" -> urllib.quote (a +:+ b) <> urllib.quote a.
Proof.
  intros Hb Heq. rewrite quote_app in Heq.
  apply (f_equal String.length) in Heq. rewrite length_app_str in Heq.
  destruct b as [|c b]; [congruence|].
  cbn [urllib.quote] in Heq. rewrite length_app_str in Heq.
  unfold urllib.quote_byte in Heq. destruct (_ || _); simpl in Heq; lia.
Qed.

End QuoteFacts.

(** ** UUIDs *)

Section UuidFacts.

Lemma hex_lower_is_hex (d : Z) :
  (0 <= d < 16)%Z -> uuid.is_hex (uuid.hex_lower d) = true.
Proof.
  intros Hd.
  assert (H : Z.to_nat d < 16) by lia.
  rewrite <- (Z2Nat.id d) by lia. clear Hd.
  revert H. generalize (Z.to_nat d) as n. intros n Hn.
  do 16 (destruct n as [|n]; [reflexivity|]). lia.
Qed.

Lemma nibble_range (n k : Z) : (0 <= Z.land (Z.shiftr n k) 15 < 16)%Z.
Proof.
  change 15%Z with (Z.ones 4). rewrite Z.land_ones by lia.
  apply Z.mod_pos_bound. lia.
Qed.

Lemma hex_digits_all_hex (k : nat) (n : Z) :
  uuid.all_hex (uuid.hex_digits k n) = true.
Proof.
  induction k as [|k IH]; [reflexivity|].
  cbn [uuid.hex_digits uuid.all_hex].
  now rewrite hex_lower_is_hex by apply nibble_range.
Qed.

Lemma hex_digits_length (k : nat) (n : Z) :
  String.length (uuid.hex_digits k n) = k.
Proof. induction k as [|k IH]; [reflexivity|]. simpl. now rewrite IH. Qed.

Lemma substring_all_hex (a b : nat) (s : string) :
  uuid.all_hex s = true -> uuid.all_hex (substring a b s) = true.
Proof.
  revert a b. induction s as [|c s IH]; intros a b Hs.
  - now destruct a, b.
  - cbn [uuid.all_hex] in Hs. apply andb_prop in Hs as [Hc Hs].
    destruct a as [|a]; [destruct b as [|b]|]; cbn [substring uuid.all_hex].
    + reflexivity.
    + now rewrite Hc, IH.
    + now apply IH.
Qed.

Lemma substring_length (a b : nat) (s : string) :
  a + b <= String.length s -> String.length (substring a b s) = b.
Proof.
  revert a b. induction s as [|c s IH]; intros a b Hs; simpl in Hs.
  - assert (a = 0) by lia. assert (b = 0) by lia. now subst.
  - destruct a as [|a]; [destruct b as [|b]|]; cbn [substring String.length].
    + reflexivity.
    + rewrite IH; [reflexivity | simpl; lia].
    + apply IH. lia.
Qed.

Lemma all_hex_lacks_hyphen (s : string) :
  uuid.all_hex s = true -> Str.lacks "-" s = true.
Proof.
  induction s as [|c s IH]; [reflexivity|].
  cbn [uuid.all_hex Str.lacks]. intros [Hc Hs]%andb_prop.
  rewrite (IH Hs), andb_true_r.
  destruct (Ascii.eqb_spec c "-") as [->|]; [discriminate Hc | reflexivity].
Qed.

(** The text of every UUID the program makes is canonical. *)
Lemma str_canonical (n : Z) : uuid.canonical (uuid.str n) = true.
Proof.
  unfold uuid.canonical, uuid.str.
  pose proof (hex_digits_all_hex 32 n) as Hh.
  pose proof (hex_digits_length 32 n) as Hl.
  rewrite (split_join "-"); [| discriminate |].
  - rewrite !substring_length by (rewrite Hl; lia).
    now rewrite !substring_all_hex by exact Hh.
  - repeat constructor; now apply all_hex_lacks_hyphen, substring_all_hex.
Qed.

End UuidFacts.

(** ** The integer of a version-4 UUID *)

Section UuidBits.

Local Open Scope Z_scope.

Lemma small_high_bits (a n i : Z) :
  0 <= a < 2 ^ n -> n <= i -> Z.testbit a i = false.
Proof.
  intros Ha Hi.
  assert (Hn : 0 <= n).
  { destruct (Z.le_gt_cases 0 n) as [Hn | Hn]; [exact Hn|].
    rewrite (Z.pow_neg_r 2 n Hn) in Ha. lia. }
  rewrite <- (Z.mod_small a (2 ^ n)) by exact Ha.
  apply Z.mod_pow2_bits_high. lia.
Qed.

Lemma high_bits_small (a n : Z) :
  0 <= n -> 0 <= a ->
  (forall i, n <= i -> Z.testbit a i = false) -> a < 2 ^ n.
Proof.
  intros Hn Ha Hbits.
  assert (Hmod : a = a mod 2 ^ n).
  { apply Z.bits_inj'. intros i Hi.
    destruct (Z.lt_ge_cases i n) as [Hlt | Hge].
    - now rewrite Z.mod_pow2_bits_low.
    - rewrite Z.mod_pow2_bits_high by lia. now apply Hbits. }
  rewrite Hmod. apply Z.mod_pos_bound. lia.
Qed.

Lemma int_from_bytes_acc (b : list byte) (acc k : Z) :
  0 <= k -> 0 <= acc < 2 ^ k ->
  0 <= fold_left (fun acc x => Z.lor (Z.shiftl acc 8) (Z.of_N (Byte.to_N x))) b acc
    < 2 ^ (k + 8 * Z.of_nat (length b)).
Proof.
  revert acc k. induction b as [|x b IH]; intros acc k Hk Hacc.
  - cbn [fold_left length]. now replace (k + 8 * Z.of_nat 0) with k by lia.
  - cbn [fold_left length].
    replace (k + 8 * Z.of_nat (S (length b)))
      with ((k + 8) + 8 * Z.of_nat (length b)) by lia.
    apply IH; [lia|].
    assert (Hx : 0 <= Z.of_N (Byte.to_N x) < 2 ^ 8).
    { pose proof (Byte.to_N_bounded x). change (2 ^ 8) with 256. lia. }
    assert (Hs : 0 <= Z.shiftl acc 8 < 2 ^ (k + 8)).
    { rewrite Z.shiftl_mul_pow2, Z.pow_add_r by lia. nia. }
    split; [apply Z.lor_nonneg; lia|].
    apply high_bits_small; [lia | apply Z.lor_nonneg; lia |].
    intros i Hi. rewrite Z.lor_spec.
    rewrite (small_high_bits _ (k + 8) i Hs Hi).
    now rewrite (small_high_bits _ 8 i Hx) by lia.
Qed.

Lemma int_from_bytes_range (b : list byte) :
  0 <= uuid.int_from_bytes b < 2 ^ (8 * Z.of_nat (length b)).
Proof.
  unfold uuid.int_from_bytes.
  apply (int_from_bytes_acc b 0 0); [lia | change (2 ^ 0) with 1; lia].
Qed.

(** The integer of a UUID made from 16 bytes has 128 bits, so that its
    32 low hexadecimal digits are all its digits. *)
Lemma UUID_range (b : list byte) :
  length b = 16%nat -> 0 <= uuid.UUID b < 2 ^ 128.
Proof.
  intros Hb. pose proof (int_from_bytes_range b) as Hx. rewrite Hb in Hx.
  change (8 * Z.of_nat 16) with 128 in Hx.
  unfold uuid.UUID. set (x := uuid.int_from_bytes b) in *.
  assert (Hn : 0 <= Z.lor (Z.land (Z.lor (Z.land x (Z.lnot (Z.shiftl 0xc000 48)))
                                      (Z.shiftl 0x8000 48))
                              (Z.lnot (Z.shiftl 0xf000 64)))
                      (Z.shiftl 4 76)).
  { apply Z.lor_nonneg. split; [|discriminate].
    apply Z.land_nonneg. left. apply Z.lor_nonneg. split; [|discriminate].
    apply Z.land_nonneg. now left. }
  split; [exact Hn|].
  apply high_bits_small; [lia | exact Hn |].
  intros i Hi.
  rewrite Z.lor_spec, Z.land_spec, Z.lor_spec, Z.land_spec.
  rewrite (small_high_bits x 128 i Hx Hi).
  rewrite (small_high_bits (Z.shiftl 0x8000 48) 128 i
             ltac:(split; [discriminate | reflexivity]) Hi).
  rewrite (small_high_bits (Z.shiftl 4 76) 128 i
             ltac:(split; [discriminate | reflexivity]) Hi).
  reflexivity.
Qed.

(** The version field of every UUID the program makes is 4. *)
Lemma UUID_version (b : list byte) :
  Z.land (Z.shiftr (uuid.UUID b) 76) 15 = 4.
Proof.
  apply Z.bits_inj'. intros i Hi.
  rewrite Z.land_spec, Z.shiftr_spec by exact Hi. unfold uuid.UUID.
  rewrite Z.lor_spec, Z.land_spec.
  destruct (Z.lt_ge_cases i 4) as [Hlt | Hge].
  - assert (Hcases : i = 0 \/ i = 1 \/ i = 2 \/ i = 3) by lia.
    destruct Hcases as [-> | [-> | [-> | ->]]];
      cbn [Z.add Pos.add Pos.succ];
      match goal with
      | |- context [Z.testbit (Z.lnot ?c) ?k] =>
          change (Z.testbit (Z.lnot c) k) with false
      end;
      rewrite andb_false_r; reflexivity.
  - rewrite (small_high_bits 15 4 i ltac:(split; [discriminate | reflexivity]) Hge).
    rewrite (small_high_bits 4 4 i ltac:(split; [discriminate | reflexivity]) Hge).
    apply andb_false_r.
Qed.

Lemma next_uuid_range (w : World) : (0 <= next_uuid w < 2 ^ 128)%Z.
Proof. apply UUID_range. now rewrite length_map, length_seq. Qed.

End UuidBits.

(** ** Streaming *)

Section ChunkFacts.

(** The chunks of a body, put end to end, are the body. *)
Lemma concat_chunks (n : nat) (l : list byte) : concat (chunks n l) = l.
Proof.
  funelim (chunks n l); simp chunks.
  - reflexivity.
  - simpl. now rewrite app_nil_r.
  - rewrite concat_cons, H. apply take_drop.
Qed.

End ChunkFacts.

(** ** Running the handlers *)

Section RunFacts.

Lemma with_fs_ext (f g : gmap string (list byte) -> gmap string (list byte))
    (w : World) :
  f (fs w) = g (fs w) -> with_fs f w = with_fs g w.
Proof. unfold with_fs. now intros ->. Qed.

Lemma with_fs_id (w : World) : with_fs (fun m => m) w = w.
Proof. now destruct w. Qed.

(** Writing the chunks one after the other appends their concatenation
    to the file. *)
Lemma for_each_write (p : string) (cs : list (list byte)) (w : World)
    (acc : list byte) :
  fs w !! resolve w p = Some acc ->
  for_each cs (write p) w
  = (Val tt, with_fs (insert (resolve w p) (acc ++ concat cs)) w).
Proof.
  revert w acc. induction cs as [|c cs IH]; intros w acc Hacc.
  - cbn [for_each concat ret]. rewrite app_nil_r.
    rewrite (with_fs_ext _ (fun m => m)), with_fs_id; [reflexivity|].
    now apply insert_id.
  - cbn [for_each bind write].
    rewrite (IH _ (acc ++ c)).
    + f_equal. unfold with_fs; cbn [fs cwd_rel entropy drawn remote sent].
      f_equal. change (resolve _ p) with (resolve w p).
      rewrite insert_insert_eq. cbn [concat]. now rewrite app_assoc.
    + change (resolve _ p) with (resolve w p). cbn [with_fs fs].
      rewrite lookup_insert_eq. now rewrite Hacc.
Qed.

(** What one call of [generate_image] does, by the answer of the remote
    server. *)
Lemma generate_image_run (prompt : string)
    (model seed width height steps cfg_scale nologo private enhance safe : PyVal)
    (w : World) :
  let url := url_of prompt in
  let params := params_of model width height steps cfg_scale enhance in
  let w1 := after_request w url params in
  generate_image prompt model seed width height steps cfg_scale nologo private
    enhance safe w
  = match remote w url params with
    | Unreachable _ => (Val None, w1)
    | Responded r =>
        if ((400 <=? status_code r) && (status_code r <? 600))%Z then (Val None, w1)
        else if (status_code r =? 200)%Z then
          (match interrupted r with
           | Some msg => Exc (RequestException msg)
           | None => Val (Some (next_filename w))
           end,
           with_fs (insert (resolve w (stored_path (next_filename w))) (content r)) w1)
        else
          (match interrupted r with
           | Some msg => Exc (RequestException msg)
           | None => Val None
           end, w1)
    end.
Proof.
  intros url params w1.
  unfold generate_image, uuid4.
  cbv beta delta [bind os_urandom ret try_except requests_get] iota.
  fold url params.
  cbn [fs cwd_rel entropy drawn remote sent].
  change {| fs := fs w; cwd_rel := cwd_rel w; entropy := entropy w;
            drawn := drawn w + 16; remote := remote w;
            sent := sent w ++ [(url, params)] |} with w1.
  destruct (remote w url params) as [msg | r]; cbn [is_RequestException];
    [reflexivity|].
  unfold raise_for_status.
  destruct ((400 <=? status_code r) && (status_code r <? 600))%Z;
    cbv beta delta [raise ret is_RequestException] iota; [reflexivity|].
  destruct (status_code r =? 200)%Z.
  2: { cbv beta delta [bind response_text] iota.
       destruct (interrupted r) as [msg|]; reflexivity. }
  cbv beta delta [bind open_wb for_iter_content] iota.
  unfold next_filename, next_uuid, stored_path.
  generalize (uuid.str (uuid.UUID (map (entropy w) (seq (drawn w) 16)))) as u.
  intros u.
  generalize (posixpath.join generated_folder (u +:+ ".jpg")) as p. intros p.
  assert (Hk : forall f, resolve (with_fs f w1) p = resolve w p) by reflexivity.
  assert (Hk1 : resolve w1 p = resolve w p) by reflexivity.
  rewrite Hk1.
  rewrite (for_each_write p _ _ []) by (rewrite Hk; apply lookup_insert_eq).
  rewrite Hk, app_nil_l, concat_chunks.
  assert (Hw : with_fs <[resolve w p:=content r]> (with_fs <[resolve w p:=[]]> w1)
               = with_fs <[resolve w p:=content r]> w1).
  { unfold with_fs. cbn [fs cwd_rel entropy drawn remote sent].
    f_equal. apply insert_insert_eq. }
  rewrite Hw.
  destruct (interrupted r) as [msg|]; reflexivity.
Qed.

Lemma jpg_name_nonempty (u : string) : String.eqb (u +:+ ".jpg") "" = false.
Proof. now destruct u. Qed.

(** What one call of the generation endpoint does. *)
Lemma generate_image_endpoint_run (request : ImageRequest) (w : World) :
  let url := url_of (prompt request) in
  let params := endpoint_params request in
  let w1 := after_request w url params in
  let failed : Res Json * World :=
    (Exc (HTTPException 500 "Image generation failed"), w1) in
  generate_image_endpoint request w
  = match remote w url params with
    | Unreachable _ => failed
    | Responded r =>
        if ((400 <=? status_code r) && (status_code r <? 600))%Z then failed
        else if (status_code r =? 200)%Z then
          (match interrupted r with
           | Some msg => Exc (RequestException msg)
           | None => Val [("file_path", "/image/" +:+ next_filename w)]
           end,
           with_fs (insert (resolve w (stored_path (next_filename w))) (content r)) w1)
        else
          (match interrupted r with
           | Some msg => Exc (RequestException msg)
           | None => Exc (HTTPException 500 "Image generation failed")
           end, w1)
    end.
Proof.
  intros url params w1 failed.
  unfold generate_image_endpoint. unfold bind at 1.
  rewrite generate_image_run. fold url. fold (endpoint_params request). fold params w1.
  destruct (remote w url params) as [msg | r]; [reflexivity|].
  destruct ((400 <=? status_code r) && (status_code r <? 600))%Z; [reflexivity|].
  destruct (status_code r =? 200)%Z;
    (destruct (interrupted r) as [msg|]; [reflexivity|]); [|reflexivity].
  unfold next_filename at 1. rewrite jpg_name_nonempty. reflexivity.
Qed.

Lemma getcwd_isabs (w : World) : posixpath.isabs (getcwd w) = true.
Proof. reflexivity. Qed.

(** A resolved path designates itself. *)
Lemma resolve_resolve (w : World) (p : string) :
  resolve w (resolve w p) = resolve w p.
Proof. unfold resolve. apply abspath_idem, getcwd_isabs. Qed.

(** Whether a path exists does not change when the path is resolved
    first. *)
Lemma path_exists_resolve (w : World) (p : string) :
  path_exists w (resolve w p) = path_exists w p.
Proof.
  unfold path_exists, is_dir, listdir. now rewrite resolve_resolve.
Qed.

(** A stored file exists. *)
Lemma path_exists_file (w : World) (p : string) :
  is_Some (fs w !! resolve w p) -> path_exists w p = true.
Proof. intros Hp. unfold path_exists. now rewrite bool_decide_true. Qed.

(** What one call of [serve_image] does. *)
Lemma serve_image_run `{Builtins} (filename : string) (w : World) :
  let name := jpg_name filename in
  let abs_file_path := resolve w (stored_path name) in
  serve_image filename w
  = if path_exists w (stored_path name) then
      (Val {| path := abs_file_path; media_type := "image/jpeg";
              filename := name |}, w)
    else
      (Exc (HTTPException 404
              ("Image not found. Available files: "
               +:+ str_of_list (listdir w generated_folder))), w).
Proof.
  intros name abs_file_path. unfold serve_image.
  fold (jpg_name filename). fold name. fold (stored_path name).
  cbv beta delta [bind os_path_abspath os_path_exists os_listdir try_except
                   FileResponse raise ret] iota.
  change (posixpath.abspath (getcwd w) (stored_path name)) with abs_file_path.
  unfold abs_file_path. rewrite path_exists_resolve.
  destruct (path_exists w (stored_path name)); reflexivity.
Qed.

End RunFacts.

(** ** Directory entries *)

Section EntryFacts.

Lemma split_app_last (c : ascii) (p n : string) :
  Str.lacks c n = true ->
  Str.split c (p +:+ String c n) = Str.split c p ++ [n].
Proof.
  intros Hn. induction p as [|x p IH].
  - rewrite app_empty_l. cbn [Str.split]. rewrite Ascii.eqb_refl.
    now rewrite (split_lacks c n Hn).
  - rewrite app_cons. cbn [Str.split]. rewrite IH.
    destruct (Ascii.eqb x c); [reflexivity|].
    pose proof (split_nonempty c p) as Hp.
    destruct (Str.split c p); [contradiction | reflexivity].
Qed.

Lemma join_snoc (sep : string) (l : list string) (n : string) :
  l <> [] -> Str.join sep (l ++ [n]) = Str.join sep l +:+ sep +:+ n.
Proof.
  induction l as [|x l IH]; [congruence|]. intros _.
  destruct l as [|y l]; [reflexivity|].
  change (Str.join sep ((x :: y :: l) ++ [n]))
    with (x +:+ sep +:+ Str.join sep ((y :: l) ++ [n])).
  rewrite IH by discriminate.
  change (Str.join sep (x :: y :: l)) with (x +:+ sep +:+ Str.join sep (y :: l)).
  now rewrite !app_assoc_str.
Qed.

Lemma endswith_char (c : ascii) (s : string) :
  Str.endswith s (String c "") = Str.last_is c s.
Proof.
  induction s as [|d s IH]; [reflexivity|].
  destruct s as [|e s].
  - unfold Str.endswith.
    cbn [String.length Nat.leb Nat.sub Str.drop String.eqb Str.last_is].
    destruct (Ascii.eqb d c); reflexivity.
  - change (Str.last_is c (String d (String e s)))
      with (Str.last_is c (String e s)).
    rewrite <- IH. unfold Str.endswith. cbn [String.length Nat.leb].
    replace (S (S (String.length s)) - 1) with (S (String.length s)) by lia.
    replace (S (String.length s) - 1) with (String.length s) by lia.
    reflexivity.
Qed.

Lemma last_is_app (c : ascii) (a b : string) :
  b <> "" -> Str.last_is c (a +:+ b) = Str.last_is c b.
Proof.
  intros Hb. induction a as [|x a IH]; [reflexivity|].
  rewrite app_cons. cbn [Str.last_is]. rewrite IH.
  destruct (a +:+ b) eqn:Hab; [|reflexivity].
  destruct a; [now rewrite app_empty_l in Hab | discriminate].
Qed.

Lemma clean_last (n : string) : clean n -> Str.last_is "/" n = false.
Proof.
  intros (Hl & Hne & _). induction n as [|x n IH]; [congruence|].
  cbn [Str.lacks] in Hl. apply andb_prop in Hl as [Hx Hl].
  apply negb_true_iff in Hx. destruct n as [|y n]; [exact Hx|].
  now apply IH.
Qed.

Lemma clean_no_slash_start (n : string) :
  clean n -> Str.startswith n "/" = false.
Proof.
  intros (Hl & Hne & _). destruct n as [|x n]; [congruence|].
  cbn [Str.lacks] in Hl. apply andb_prop in Hl as [Hx _].
  apply negb_true_iff in Hx. cbn [Str.startswith].
  now rewrite Ascii.eqb_sym, Hx.
Qed.

Lemma join_clean_last (l : list string) :
  l <> [] -> Forall clean l ->
  Str.join "/" l <> "" /\ Str.last_is "/" (Str.join "/" l) = false.
Proof.
  induction l as [|x l IH]; [congruence|]. intros _ Hl.
  inversion Hl as [|? ? Hx Hl']; subst.
  destruct l as [|y l].
  - cbn [Str.join]. split; [apply Hx | now apply clean_last].
  - destruct (IH ltac:(discriminate) Hl') as [Hne Hlast].
    change (Str.join "/" (x :: y :: l))
      with (x +:+ "/" +:+ Str.join "/" (y :: l)).
    split.
    + destruct x; [now destruct Hx as (_ & ? & _) | discriminate].
    + rewrite last_is_app; [rewrite last_is_app; assumption|].
      discriminate.
Qed.

(** The entry of a normalised directory that holds a file directly below
    it is the last component of the file's path. *)
Lemma entry_of_child (s : nat) (l : list string) (n : string) :
  s = 1 \/ s = 2 -> Forall clean l -> clean n ->
  entry_of (Str.times "/" s +:+ Str.join "/" l)
           (Str.times "/" s +:+ Str.join "/" (l ++ [n])) = Some n.
Proof.
  intros Hs Hl Hn.
  assert (Hfin : forall prefix, entry_of_prefix prefix (prefix +:+ n) = Some n).
  { intros prefix. unfold entry_of_prefix.
    rewrite startswith_app, drop_app, split_lacks by apply Hn.
    destruct (String.eqb_spec n ""); [now destruct Hn as (_ & ? & _) | reflexivity]. }
  unfold entry_of. destruct l as [|x l].
  - cbn [app Str.join]. rewrite app_empty_r.
    destruct Hs as [-> | ->]; cbn [Str.times]; apply Hfin.
  - destruct (join_clean_last (x :: l) ltac:(discriminate) Hl) as [Hne Hlast].
    rewrite endswith_char, last_is_app, Hlast by exact Hne.
    rewrite join_snoc by discriminate.
    replace (Str.times "/" s +:+ Str.join "/" (x :: l) +:+ "/" +:+ n)
      with (((Str.times "/" s +:+ Str.join "/" (x :: l)) +:+ "/") +:+ n)
      by now rewrite !app_assoc_str.
    apply Hfin.
Qed.

End EntryFacts.

Section StoredFacts.

Lemma initial_slashes_stable (a x y : string) (g : ascii) :
  Ascii.eqb "/" g = false ->
  posixpath.initial_slashes (String "/" (a +:+ String g x))
  = posixpath.initial_slashes (String "/" (a +:+ String g y)).
Proof.
  intros Hg. unfold posixpath.initial_slashes, posixpath.sep.
  destruct a as [|c [|d a]]; rewrite ?app_cons, ?app_empty_l;
    cbn [Str.startswith]; rewrite ?Ascii.eqb_refl, ?Hg.
  - reflexivity.
  - destruct (Ascii.eqb "/" c); reflexivity.
  - destruct (Ascii.eqb "/" c), (Ascii.eqb "/" d); reflexivity.
Qed.

(** The normal form of a path one clean component below an absolute
    path. *)
Lemma normpath_child (p n : string) :
  posixpath.isabs p = true -> clean n ->
  posixpath.initial_slashes (p +:+ String "/" n) = posixpath.initial_slashes p ->
  exists s l,
    (s = 1 \/ s = 2) /\ Forall clean l
    /\ posixpath.normpath p = Str.times "/" s +:+ Str.join "/" l
    /\ posixpath.normpath (p +:+ String "/" n)
       = Str.times "/" s +:+ Str.join "/" (l ++ [n]).
Proof.
  intros Hp Hn Hinit. pose proof (initial_slashes_abs p Hp) as Hs.
  exists (posixpath.initial_slashes p),
    (fold_left (posixpath.step (posixpath.initial_slashes p)) (Str.split "/" p) []).
  split; [exact Hs|]. split; [|split].
  - apply fold_step_abs_clean; [lia | apply split_comps_lack | constructor].
  - unfold posixpath.normpath.
    destruct p as [|c p]; [discriminate|]. cbn [String.eqb].
    destruct Hs as [-> | ->]; reflexivity.
  - unfold posixpath.normpath. rewrite Hinit.
    rewrite split_app_last by apply Hn.
    rewrite fold_left_app. cbn [fold_left]. rewrite step_clean by exact Hn.
    destruct p as [|c p]; [discriminate|]. rewrite app_cons. cbn [String.eqb].
    destruct Hs as [-> | ->]; reflexivity.
Qed.

(** What [os.path.join] puts between a directory and a relative path. *)
Lemma join_relative (a b : string) :
  Str.startswith b "/" = false ->
  posixpath.join a b
  = (if String.eqb a "" || Str.endswith a "/" then a else a +:+ "/") +:+ b.
Proof.
  intros Hb. unfold posixpath.join, posixpath.sep. rewrite Hb.
  destruct (_ || _); [reflexivity | now rewrite app_assoc_str].
Qed.

Lemma stored_path_clean (n : string) :
  clean n -> stored_path n = "generated/" +:+ n.
Proof.
  intros Hn. unfold stored_path.
  rewrite join_relative by now apply clean_no_slash_start. reflexivity.
Qed.

(** A file stored under a clean name is an entry of the storage
    directory. *)
Lemma entry_of_stored (w : World) (n : string) :
  clean n ->
  entry_of (resolve w generated_folder) (resolve w (stored_path n)) = Some n.
Proof.
  intros Hn. rewrite stored_path_clean by exact Hn.
  unfold resolve, posixpath.abspath.
  change (posixpath.isabs generated_folder) with false.
  change (posixpath.isabs ("generated/" +:+ n)) with false. cbv iota.
  rewrite !join_relative by reflexivity.
  change (getcwd w) with (String "/" (cwd_rel w)).
  assert (Ha : exists a,
             (if String.eqb (String "/" (cwd_rel w)) ""
                 || Str.endswith (String "/" (cwd_rel w)) "/"
              then String "/" (cwd_rel w)
              else String "/" (cwd_rel w) +:+ "/") = String "/" a).
  { destruct (_ || _); eexists; [reflexivity | now rewrite app_cons]. }
  destruct Ha as [a ->].
  replace (String "/" a +:+ "generated/" +:+ n)
    with ((String "/" a +:+ generated_folder) +:+ String "/" n)
    by (now rewrite app_assoc_str).
  destruct (normpath_child (String "/" a +:+ generated_folder) n)
    as (s & l & Hs & Hl & -> & ->); [reflexivity | exact Hn | |].
  - rewrite app_assoc_str, !app_cons.
    apply (initial_slashes_stable a _ _ "g"). reflexivity.
  - now apply entry_of_child.
Qed.

(** [os.listdir] of the storage directory names every file stored under a
    clean name. *)
Lemma stored_in_listdir (w : World) (n : string) :
  clean n -> is_Some (fs w !! resolve w (stored_path n)) ->
  n ∈ listdir w generated_folder.
Proof.
  intros Hn [b Hb]. unfold listdir.
  apply elem_of_remove_dups, list_elem_of_omap.
  exists (resolve w (stored_path n)). split; [|now apply entry_of_stored].
  apply list_elem_of_fmap. exists (resolve w (stored_path n), b).
  split; [reflexivity|]. now apply elem_of_map_to_list.
Qed.

(** [os.listdir] names only entries that hold a stored file. *)
Lemma listdir_stored (w : World) (dir n : string) :
  n ∈ listdir w dir ->
  exists key, is_Some (fs w !! key) /\ entry_of (resolve w dir) key = Some n.
Proof.
  unfold listdir. rewrite elem_of_remove_dups, list_elem_of_omap.
  intros (key & Hin & He). exists key. split; [|exact He].
  apply list_elem_of_fmap in Hin as ([k b] & -> & Hin).
  apply elem_of_map_to_list in Hin. now exists b.
Qed.

End StoredFacts.

(** ** The generation handler *)

Section GenerationClaims.

(** C10.  The arguments [seed], [nologo], [private] and [safe] of
    [generate_image] have no effect: two calls that differ only in them,
    run in the same world, send the same request (same URL, same query
    parameters) and end with the same result in the same world. *)
Theorem unused_arguments_ignored (prompt : string)
    (model width height steps cfg_scale enhance : PyVal)
    (seed nologo private safe seed' nologo' private' safe' : PyVal)
    (w : World) :
  generate_image prompt model seed width height steps cfg_scale
    nologo private enhance safe w
  = generate_image prompt model seed' width height steps cfg_scale
      nologo' private' enhance safe' w.
Proof. reflexivity. Qed.

(** C4.  Whatever the prompt and the answer of the remote server,
    [generate_image] sends exactly one request; its URL is the base URL,
    a slash and the URL-encoding of the derived prompt, which is the user's
    prompt followed by the fixed suffix of quality clauses, and it is not
    the URL of the raw prompt. *)
Theorem derived_prompt_is_sent (prompt : string)
    (model seed width height steps cfg_scale nologo private enhance safe : PyVal)
    (w : World) :
  let derived :=
    prompt +:+ ", high resolution, highly detailed, sharp focus, professional photography, cinematic lighting, 8k uhd, ray tracing, ambient lighting" in
  let url := "https://image.pollinations.ai/prompt/" +:+ urllib.quote derived in
  sent (snd (generate_image prompt model seed width height steps cfg_scale
               nologo private enhance safe w))
  = sent w ++ [(url, params_of model width height steps cfg_scale enhance)]
  /\ url <> "https://image.pollinations.ai/prompt/" +:+ urllib.quote prompt.
Proof.
  intros derived url. split.
  - rewrite generate_image_run.
    change (url_of prompt) with url.
    destruct (remote w url _) as [msg | r]; [reflexivity|].
    destruct (_ && _); [reflexivity|].
    destruct (_ =? _)%Z; reflexivity.
  - unfold url, derived. intros Heq.
    apply (inj (String.app _)) in Heq.
    revert Heq. apply quote_app_neq. discriminate.
Qed.

(** C1.  When the remote server answers the request of [generate_image]
    with status 200 and its body arrives in full, [generate_image] returns
    a file name, and in the world it returns in, the file of that name in
    the storage directory exists and holds exactly the bytes of the
    body. *)
Theorem generate_image_saves_body (prompt : string)
    (model seed width height steps cfg_scale nologo private enhance safe : PyVal)
    (w : World) (r : Response) :
  remote w (url_of prompt) (params_of model width height steps cfg_scale enhance)
  = Responded r ->
  status_code r = 200%Z ->
  interrupted r = None ->
  exists (name : string) (w' : World),
    generate_image prompt model seed width height steps cfg_scale
      nologo private enhance safe w = (Val (Some name), w')
    /\ fst (os_path_exists (posixpath.join generated_folder name) w') = Val true
    /\ fs w' !! resolve w' (posixpath.join generated_folder name)
       = Some (content r).
Proof.
  intros Hr Hs Hi. rewrite generate_image_run, Hr, Hs, Hi.
  change ((400 <=? 200)%Z && (200 <? 600)%Z) with false.
  change (200 =? 200)%Z with true. cbv iota.
  eexists _, _. split; [reflexivity|].
  unfold stored_path.
  generalize (posixpath.join generated_folder (next_filename w)) as p. intros p.
  set (w1 := after_request w _ _).
  assert (Hk : resolve (with_fs <[resolve w p:=content r]> w1) p = resolve w p)
    by reflexivity.
  assert (Hfile : fs (with_fs <[resolve w p:=content r]> w1)
                    !! resolve (with_fs <[resolve w p:=content r]> w1) p
                  = Some (content r)).
  { rewrite Hk. cbn [with_fs fs]. apply lookup_insert_eq. }
  split; [|exact Hfile].
  unfold os_path_exists. cbn [fst]. f_equal.
  apply path_exists_file. rewrite Hfile. eauto.
Qed.

(** C2.  The claim asks that every failed external call ends in status
    500 with the file system unchanged.  The code does not do this when
    the call fails after the status line: on status 200 with a body stream
    that breaks, the error leaves the handler uncaught and a new file
    holding the bytes received so far is left in the storage directory,
    where no file of that name was before. *)
Theorem broken_stream_leaves_truncated_file :
  fst (generate_image_endpoint bicycle (sample_world (Responded broken_response)))
  = Exc (RequestException "Connection broken")
  /\ fs (sample_world (Responded broken_response))
       !! "/srv/app/generated/00112233-4455-4677-8899-aabbccddeeff.jpg" = None
  /\ fs (snd (generate_image_endpoint bicycle
                (sample_world (Responded broken_response))))
       !! "/srv/app/generated/00112233-4455-4677-8899-aabbccddeeff.jpg"
     = Some [xff; xd8].
Proof. repeat split; vm_compute; reflexivity. Qed.

(** C5.  Whenever the generation endpoint returns a body, that is on every
    successful generation, the body is [{"file_path": "/image/<uuid>.jpg"}]
    with [<uuid>] a UUID in canonical form. *)
Theorem endpoint_success_body (request : ImageRequest) (w w' : World)
    (body : Json) :
  generate_image_endpoint request w = (Val body, w') ->
  exists u : string,
    body = [("file_path", "/image/" +:+ u +:+ ".jpg")]
    /\ uuid.canonical u = true.
Proof.
  rewrite generate_image_endpoint_run. intros Hrun.
  exists (uuid.str (next_uuid w)). split; [|apply str_canonical].
  destruct (remote w _ _) as [msg | r]; [discriminate|].
  destruct (_ && _); [discriminate|].
  destruct (_ =? _)%Z; (destruct (interrupted r); [discriminate|]);
    [|discriminate].
  now injection Hrun as <- _.
Qed.

(** A stream that breaks after status 200 is not one of the failures the
    handler catches: the error leaves [generate_image] and the bytes
    received so far stay in the new file. *)
Remark interrupted_stream_leaves_file (prompt : string)
    (model seed width height steps cfg_scale nologo private enhance safe : PyVal)
    (w : World) (r : Response) (msg : string) :
  remote w (url_of prompt) (params_of model width height steps cfg_scale enhance)
  = Responded r ->
  status_code r = 200%Z ->
  interrupted r = Some msg ->
  exists w',
    generate_image prompt model seed width height steps cfg_scale
      nologo private enhance safe w = (Exc (RequestException msg), w')
    /\ fs w' !! resolve w' (posixpath.join generated_folder (next_filename w))
       = Some (content r).
Proof.
  intros Hr Hs Hi. rewrite generate_image_run, Hr, Hs, Hi.
  change ((400 <=? 200)%Z && (200 <? 600)%Z) with false.
  change (200 =? 200)%Z with true. cbv iota.
  eexists. split; [reflexivity|].
  unfold stored_path.
  generalize (posixpath.join generated_folder (next_filename w)) as p. intros p.
  set (w1 := after_request w _ _).
  assert (Hk : resolve (with_fs <[resolve w p:=content r]> w1) p = resolve w p)
    by reflexivity.
  rewrite Hk. cbn [with_fs fs]. apply lookup_insert_eq.
Qed.

End GenerationClaims.

Lemma generate_image_saves_body_witness :
  exists (name : string) (w' : World),
    generate_image "a red bicycle" (PStr "flux-pro") PNone (PInt 512) (PInt 512)
      (PInt 20) (PInt 9) (PBool true) PNone (PBool true) (PBool true)
      (sample_world (Responded ok_response)) = (Val (Some name), w')
    /\ fst (os_path_exists (posixpath.join generated_folder name) w') = Val true
    /\ fs w' !! resolve w' (posixpath.join generated_folder name)
       = Some jpeg_bytes.
Proof.
  apply (generate_image_saves_body "a red bicycle" (PStr "flux-pro") PNone
           (PInt 512) (PInt 512) (PInt 20) (PInt 9) (PBool true) PNone
           (PBool true) (PBool true)
           (sample_world (Responded ok_response)) ok_response);
    reflexivity.
Defined.

Lemma endpoint_success_body_witness :
  exists u : string,
    [("file_path", "/image/00112233-4455-4677-8899-aabbccddeeff.jpg")]
    = [("file_path", "/image/" +:+ u +:+ ".jpg")]
    /\ uuid.canonical u = true.
Proof.
  apply (endpoint_success_body bicycle
           (sample_world (Responded ok_response))
           (snd (generate_image_endpoint bicycle
                   (sample_world (Responded ok_response))))).
  vm_compute. reflexivity.
Defined.

(** ** The file server *)

Section ServeClaims.

Context `{Builtins}.

Lemma jpg_name_without (f : string) :
  Str.endswith f ".jpg" = false -> jpg_name f = f +:+ ".jpg".
Proof. unfold jpg_name. now intros ->. Qed.

Lemma jpg_name_with (f : string) : jpg_name (f +:+ ".jpg") = f +:+ ".jpg".
Proof. unfold jpg_name. now rewrite endswith_app. Qed.

(** C6.  For a file name that does not end in [.jpg], [serve_image]
    answers exactly as it does for that name with [.jpg] appended. *)
Theorem serve_image_extension_optional (f : string) (w : World) :
  Str.endswith f ".jpg" = false ->
  serve_image f w = serve_image (f +:+ ".jpg") w.
Proof.
  intros Hf. rewrite !serve_image_run.
  now rewrite (jpg_name_without f Hf), jpg_name_with.
Qed.

(** C8.  The claim asks for status 500 with the text of the error when
    reading an existing file fails.  The handler cannot answer so: its
    [try] covers only the call that builds the response object, which
    touches no file.  Whenever the file exists the handler returns the
    file response, before anything is read, and in no world does it raise
    the [HTTPException] with status 500 of its [except] branch. *)
Theorem serve_image_returns_before_reading (f : string) (w : World) :
  (is_Some (fs w !! resolve w (posixpath.join generated_folder (jpg_name f))) ->
   serve_image f w
   = (Val {| path := resolve w (posixpath.join generated_folder (jpg_name f));
             media_type := "image/jpeg"; filename := jpg_name f |}, w))
  /\ forall detail, fst (serve_image f w) <> Exc (HTTPException 500 detail).
Proof.
  rewrite serve_image_run. unfold stored_path. split.
  - intros Hfile. now rewrite (path_exists_file _ _ Hfile).
  - intros detail. destruct (path_exists w _); discriminate.
Qed.

(** C9.  [serve_image] leaves the world, and so the storage directory and
    every stored file, as it found it, and a second request for the same
    name gets the same answer.  For every stored file name both requests
    get a file response and are served the same bytes, those of the
    stored file; whatever response is returned, it is served the same in
    the world the call leaves. *)
Theorem serve_image_idempotent (f : string) (w : World) :
  snd (serve_image f w) = w
  /\ serve_image f (snd (serve_image f w)) = serve_image f w
  /\ (forall b,
        fs w !! resolve w (posixpath.join generated_folder (jpg_name f)) = Some b ->
        exists resp,
          fst (serve_image f w) = Val resp
          /\ served_bytes w resp = Some b
          /\ served_bytes (snd (serve_image f w)) resp = Some b)
  /\ (forall resp,
        fst (serve_image f w) = Val resp ->
        served_bytes (snd (serve_image f w)) resp = served_bytes w resp).
Proof.
  assert (Hw : snd (serve_image f w) = w).
  { rewrite serve_image_run. destruct (path_exists w _); reflexivity. }
  rewrite Hw. split; [reflexivity|]. split; [reflexivity|]. split; [|reflexivity].
  intros b Hb. rewrite serve_image_run. unfold stored_path.
  rewrite path_exists_file by (rewrite Hb; eauto).
  eexists. split; [reflexivity|]. unfold served_bytes. cbn [path].
  now rewrite resolve_resolve, Hb.
Qed.

(** C3.  A file name returned by a successful call of the generation
    endpoint, given as it is to [serve_image] in the world the endpoint
    left, yields a file response (status 200) of media type [image/jpeg]
    that serves the bytes stored under that name, which are the body the
    remote server sent. *)
Theorem generated_file_is_served (request : ImageRequest) (w w' : World)
    (name : string) :
  generate_image_endpoint request w
  = (Val [("file_path", "/image/" +:+ name)], w') ->
  exists resp r,
    serve_image name w' = (Val resp, w')
    /\ http_status (fst (serve_image name w')) = 200%Z
    /\ media_type resp = "image/jpeg"
    /\ remote w (url_of (prompt request)) (endpoint_params request) = Responded r
    /\ fs w' !! resolve w' (posixpath.join generated_folder name)
       = Some (content r)
    /\ served_bytes w' resp = Some (content r).
Proof.
  rewrite generate_image_endpoint_run. intros Hrun.
  destruct (remote w _ _) as [msg | r]; [discriminate|].
  destruct (_ && _); [discriminate|].
  destruct (_ =? _)%Z; (destruct (interrupted r); [discriminate|]);
    [|discriminate].
  injection Hrun as Hname Hw'.
  apply (inj (String.app _)) in Hname.
  assert (Hjpg : jpg_name name = name).
  { rewrite <- Hname. apply jpg_name_with. }
  assert (Hfile : fs w' !! resolve w' (posixpath.join generated_folder name)
                  = Some (content r)).
  { rewrite <- Hw', <- Hname. unfold stored_path.
    generalize (posixpath.join generated_folder (next_filename w)) as p. intros p.
    set (w1 := after_request w _ _).
    assert (Hk : resolve (with_fs <[resolve w p:=content r]> w1) p = resolve w p)
      by reflexivity.
    rewrite Hk. cbn [with_fs fs]. apply lookup_insert_eq. }
  clear Hw' Hname.
  assert (Hrun : serve_image name w'
                 = (Val {| path := resolve w' (posixpath.join generated_folder name);
                           media_type := "image/jpeg"; filename := name |}, w')).
  { rewrite serve_image_run, Hjpg. unfold stored_path.
    now rewrite path_exists_file by (rewrite Hfile; eauto). }
  eexists _, r. rewrite Hrun. repeat split; [exact Hfile|].
  unfold served_bytes. cbn [path]. now rewrite resolve_resolve.
Qed.

(** C7, as amended.  When nothing exists at the path of the normalised
    name, neither a file nor a directory, [serve_image] raises
    [HTTPException] with status 404, and its detail is the fixed text
    followed by the list that [os.listdir] returns for the storage
    directory, which names every file stored there. *)
Theorem serve_image_not_found (f : string) (w : World) :
  path_exists w (posixpath.join generated_folder (jpg_name f)) = false ->
  serve_image f w
  = (Exc (HTTPException 404
            ("Image not found. Available files: ["
             +:+ Str.join ", " (map repr (listdir w generated_folder)) +:+ "]")),
     w)
  /\ http_status (fst (serve_image f w)) = 404%Z
  /\ forall n, clean n ->
       is_Some (fs w !! resolve w (posixpath.join generated_folder n)) ->
       n ∈ listdir w generated_folder.
Proof.
  intros Hnone. rewrite serve_image_run. unfold stored_path. rewrite Hnone.
  repeat split. intros n Hn Hsome. now apply stored_in_listdir.
Qed.

End ServeClaims.

Lemma serve_image_extension_optional_witness :
  @serve_image plain_repr "old" (sample_world (Responded ok_response))
  = @serve_image plain_repr "old.jpg" (sample_world (Responded ok_response)).
Proof.
  apply (@serve_image_extension_optional plain_repr "old"
           (sample_world (Responded ok_response))).
  vm_compute. reflexivity.
Defined.

Lemma generated_file_is_served_witness :
  exists resp r,
    @serve_image plain_repr sample_name sample_generated = (Val resp, sample_generated)
    /\ http_status (fst (@serve_image plain_repr sample_name sample_generated)) = 200%Z
    /\ media_type resp = "image/jpeg"
    /\ remote (sample_world (Responded ok_response))
         (url_of (prompt bicycle)) (endpoint_params bicycle) = Responded r
    /\ fs sample_generated !! resolve sample_generated
                               (posixpath.join generated_folder sample_name)
       = Some (content r)
    /\ served_bytes sample_generated resp = Some (content r).
Proof.
  apply (@generated_file_is_served plain_repr bicycle
           (sample_world (Responded ok_response)) sample_generated
           sample_name).
  vm_compute. reflexivity.
Defined.

(** C7, as the claim states it, fails where the normalised name is a
    directory of the storage directory: no file is stored under the name,
    yet [os.path.exists] holds of it and the handler returns a file
    response, not the 404. *)
Lemma serve_image_not_found_counterexample :
  fs directory_world
    !! resolve directory_world (posixpath.join generated_folder (jpg_name "dir"))
  = None
  /\ @serve_image plain_repr "dir" directory_world
     = (Val {| path := "/srv/app/generated/dir.jpg"; media_type := "image/jpeg";
               filename := "dir.jpg" |}, directory_world)
  /\ http_status (fst (@serve_image plain_repr "dir" directory_world)) <> 404%Z.
Proof. repeat split; vm_compute; congruence. Qed.

Lemma serve_image_not_found_witness :
  @serve_image plain_repr "does-not-exist"
    (sample_world (Responded ok_response))
  = (Exc (HTTPException 404 "Image not found. Available files: ['old.jpg']"),
     sample_world (Responded ok_response))
  /\ http_status
       (fst (@serve_image plain_repr "does-not-exist"
               (sample_world (Responded ok_response)))) = 404%Z
  /\ forall n, clean n ->
       is_Some (fs (sample_world (Responded ok_response))
                !! resolve (sample_world (Responded ok_response))
                     (posixpath.join generated_folder n)) ->
       n ∈ listdir (sample_world (Responded ok_response)) generated_folder.
Proof.
  apply (@serve_image_not_found plain_repr "does-not-exist"
           (sample_world (Responded ok_response))).
  vm_compute. reflexivity.
Defined.

(** * Further properties of the handlers *)

(** ** Generation *)

Section GenerationFacts.

Lemma status_200 (s : Z) :
  ((400 <=? s) && (s <? 600))%Z = false -> (s =? 200)%Z = true -> s = 200%Z.
Proof. intros _ Hs. now apply Z.eqb_eq. Qed.

Lemma status_200_run (s : Z) :
  s = 200%Z -> ((400 <=? s) && (s <? 600))%Z = false /\ (s =? 200)%Z = true.
Proof. intros ->. split; reflexivity. Qed.

(** A successful run of the endpoint, read backwards. *)
Lemma endpoint_success_inv (request : ImageRequest) (w w' : World) (body : Json) :
  generate_image_endpoint request w = (Val body, w') ->
  exists r,
    remote w (url_of (prompt request)) (endpoint_params request) = Responded r
    /\ status_code r = 200%Z /\ interrupted r = None
    /\ body = [("file_path", "/image/" +:+ next_filename w)]
    /\ w' = with_fs (insert (resolve w (stored_path (next_filename w))) (content r))
              (after_request w (url_of (prompt request)) (endpoint_params request)).
Proof.
  rewrite generate_image_endpoint_run. intros Hrun.
  destruct (remote w _ _) as [msg | r]; [discriminate|].
  destruct (_ && _) eqn:H1; [discriminate|].
  destruct (_ =? _)%Z eqn:H2;
    (destruct (interrupted r) eqn:H3; [discriminate|]); [|discriminate].
  exists r. injection Hrun as <- <-.
  repeat split; try reflexivity; try assumption. now apply status_200.
Qed.

Lemma lookup_with_fs_insert (w w1 : World) (k key : string) (b : list byte) :
  fs w1 = fs w -> key <> k ->
  fs (with_fs (insert k b) w1) !! key = fs w !! key.
Proof. intros Hfs Hk. cbn [with_fs fs]. rewrite lookup_insert_ne by congruence. now rewrite Hfs. Qed.

(** X1.  When the remote server answers 200 and the stream of the body
    then breaks, the endpoint does not answer with its own
    [HTTPException]: the error of the stream leaves the handler, the
    client gets status 500, and the new file stays in the storage
    directory with the bytes received so far. *)
Theorem endpoint_interrupted_stream (request : ImageRequest) (w : World)
    (r : Response) (msg : string) :
  remote w (url_of (prompt request)) (endpoint_params request) = Responded r ->
  status_code r = 200%Z ->
  interrupted r = Some msg ->
  fst (generate_image_endpoint request w) = Exc (RequestException msg)
  /\ http_status (fst (generate_image_endpoint request w)) = 500%Z
  /\ fs (snd (generate_image_endpoint request w))
       !! resolve w (posixpath.join generated_folder (next_filename w))
     = Some (content r).
Proof.
  intros Hr Hs Hi. rewrite generate_image_endpoint_run, Hr, Hi.
  destruct (status_200_run _ Hs) as [-> ->].
  repeat split. cbn [snd with_fs fs]. unfold stored_path. apply lookup_insert_eq.
Qed.

(** X2.  Whatever the outcome, [generate_image] changes no file other than
    the one it names after the UUID it draws: every other path holds after
    the call what it held before, and no file is removed. *)
Theorem generate_image_keeps_other_files (prompt : string)
    (model seed width height steps cfg_scale nologo private enhance safe : PyVal)
    (w : World) (key : string) :
  key <> resolve w (posixpath.join generated_folder (next_filename w)) ->
  fs (snd (generate_image prompt model seed width height steps cfg_scale
             nologo private enhance safe w)) !! key
  = fs w !! key.
Proof.
  intros Hkey. rewrite generate_image_run.
  destruct (remote w _ _) as [msg | r]; [reflexivity|].
  destruct (_ && _); [reflexivity|].
  destruct (_ =? _)%Z; [|reflexivity].
  cbn [snd]. now apply lookup_with_fs_insert.
Qed.

(** X3.  The generation endpoint answers 200 exactly when the remote
    server answered 200 and the body arrived in full; in every other case
    it answers 500. *)
Theorem endpoint_status_200_iff (request : ImageRequest) (w : World) :
  (http_status (fst (generate_image_endpoint request w)) = 200%Z
   <-> exists r,
         remote w (url_of (prompt request)) (endpoint_params request) = Responded r
         /\ status_code r = 200%Z /\ interrupted r = None)
  /\ (http_status (fst (generate_image_endpoint request w)) = 200%Z
      \/ http_status (fst (generate_image_endpoint request w)) = 500%Z).
Proof.
  rewrite generate_image_endpoint_run.
  destruct (remote w _ _) as [msg | r].
  { split; [|now right]. split; [discriminate|]. now intros (r & [=] & _). }
  destruct (_ && _) eqn:H1.
  { split; [|now right]. split; [discriminate|].
    intros (r' & [= <-] & Hs & _). rewrite Hs in H1. discriminate. }
  destruct (_ =? _)%Z eqn:H2.
  - destruct (interrupted r) eqn:H3.
    + split; [|now right]. split; [discriminate|].
      intros (r' & [= <-] & _ & Hi). congruence.
    + split; [|now left]. split; [|reflexivity].
      intros _. exists r. repeat split; [|exact H3]. now apply status_200.
  - assert (Hstatus : http_status
                        (match interrupted r with
                         | Some msg => @Exc Json (RequestException msg)
                         | None => Exc (HTTPException 500 "Image generation failed")
                         end) = 500%Z)
      by (destruct (interrupted r); reflexivity).
    cbn [fst]. rewrite Hstatus.
    split; [|now right]. split; [discriminate|].
    intros (r' & [= <-] & Hs & _). rewrite Hs in H2. discriminate.
Qed.

(** X16.  When the request gets no response, or a response whose status
    is not 200, the client gets status 500 and the file system is exactly
    as it was before the call.  The endpoint raises its
    [HTTPException(500, "Image generation failed")], except when the
    status is neither 200 nor an error status and the stream breaks while
    the body is read for the log: then that error leaves the handler. *)
Theorem endpoint_failure_keeps_files (request : ImageRequest) (w : World) :
  (exists msg,
      remote w (url_of (prompt request)) (endpoint_params request)
      = Unreachable msg)
  \/ (exists r,
         remote w (url_of (prompt request)) (endpoint_params request)
         = Responded r
         /\ status_code r <> 200%Z) ->
  http_status (fst (generate_image_endpoint request w)) = 500%Z
  /\ fs (snd (generate_image_endpoint request w)) = fs w
  /\ (fst (generate_image_endpoint request w)
      = Exc (HTTPException 500 "Image generation failed")
      \/ exists r msg,
           remote w (url_of (prompt request)) (endpoint_params request)
           = Responded r
           /\ ((400 <=? status_code r) && (status_code r <? 600))%Z = false
           /\ interrupted r = Some msg
           /\ fst (generate_image_endpoint request w)
              = Exc (RequestException msg)).
Proof.
  intros Hfail. rewrite generate_image_endpoint_run.
  destruct Hfail as [[msg ->] | (r & -> & Hs)]; [repeat split; now left|].
  destruct (_ && _) eqn:H1; [repeat split; now left|].
  apply Z.eqb_neq in Hs. rewrite Hs.
  destruct (interrupted r) as [msg|] eqn:Hi; repeat split; [|now left].
  right. exists r, msg. now repeat split.
Qed.

(** X4.  [generate_image] draws the 16 random bytes of its UUID on every
    call, before the request and also when the request then fails; the
    next call reads the 16 bytes that follow.  It changes neither the
    working directory nor the source of entropy. *)
Theorem generate_image_draws_16_bytes (prompt : string)
    (model seed width height steps cfg_scale nologo private enhance safe : PyVal)
    (w : World) :
  let w' := snd (generate_image prompt model seed width height steps cfg_scale
                   nologo private enhance safe w) in
  drawn w' = drawn w + 16
  /\ next_uuid w' = uuid.UUID (map (entropy w) (seq (drawn w + 16) 16))
  /\ cwd_rel w' = cwd_rel w.
Proof.
  intros w'. subst w'. rewrite generate_image_run.
  destruct (remote w _ _) as [msg | r]; [now repeat split|].
  destruct (_ && _); [now repeat split|].
  destruct (_ =? _)%Z; now repeat split.
Qed.


Lemma next_filename_with_fs (g : gmap string (list byte) -> gmap string (list byte)) (w : World) :
  next_filename (with_fs g w) = next_filename w.
Proof. unfold next_filename, next_uuid, with_fs. cbn [entropy drawn]. reflexivity. Qed.

(** X15.  [generate_image] never reads the storage directory: its result
    is the same whatever files are stored, so a file that already has the
    drawn name is replaced without notice. *)
Theorem generate_image_ignores_stored_files (prompt : string)
    (model seed width height steps cfg_scale nologo private enhance safe : PyVal)
    (w : World) (g : gmap string (list byte) -> gmap string (list byte)) :
  fst (generate_image prompt model seed width height steps cfg_scale
         nologo private enhance safe (with_fs g w))
  = fst (generate_image prompt model seed width height steps cfg_scale
           nologo private enhance safe w)
  /\ forall r,
       remote w (url_of prompt)
         (params_of model width height steps cfg_scale enhance) = Responded r ->
       status_code r = 200%Z ->
       fs (snd (generate_image prompt model seed width height steps cfg_scale
                  nologo private enhance safe (with_fs g w)))
         !! resolve w (posixpath.join generated_folder (next_filename w))
       = Some (content r).
Proof.
  rewrite !generate_image_run.
  rewrite next_filename_with_fs.
  cbn [remote with_fs].
  split.
  - destruct (remote w _ _) as [msg | r]; [reflexivity|].
    destruct (_ && _); [reflexivity|].
    destruct (_ =? _)%Z; reflexivity.
  - intros r Hr Hs. rewrite Hr. destruct (status_200_run _ Hs) as [-> ->].
    cbn [snd with_fs fs]. unfold stored_path.
    generalize (posixpath.join generated_folder (next_filename w)) as p. intros p.
    assert (Hk : resolve (with_fs g w) p = resolve w p) by reflexivity.
    rewrite Hk.
    apply lookup_insert_eq.
Qed.

End GenerationFacts.

(** ** The outbound request *)

Section RequestFacts.

Lemma all_chars_app (p : ascii -> bool) (a b : string) :
  all_chars p (a +:+ b) = all_chars p a && all_chars p b.
Proof.
  induction a as [|c a IH]; [reflexivity|].
  rewrite app_cons. cbn [all_chars]. now rewrite IH, andb_assoc.
Qed.

Lemma quote_byte_url_chars (c : ascii) :
  all_chars url_char (urllib.quote_byte c) = true.
Proof. destruct c as [[] [] [] [] [] [] [] []]; vm_compute; reflexivity. Qed.

Lemma quote_url_chars (s : string) : all_chars url_char (urllib.quote s) = true.
Proof.
  induction s as [|c s IH]; [reflexivity|].
  cbn [urllib.quote]. now rewrite all_chars_app, quote_byte_url_chars, IH.
Qed.

Lemma all_chars_lacks (p : ascii -> bool) (c : ascii) (s : string) :
  p c = false -> all_chars p s = true -> Str.lacks c s = true.
Proof.
  intros Hc. induction s as [|d s IH]; [reflexivity|].
  cbn [all_chars Str.lacks]. intros [Hd Hs]%andb_prop.
  rewrite (IH Hs), andb_true_r.
  destruct (Ascii.eqb_spec d c) as [->|]; [congruence | reflexivity].
Qed.

(** X6.  Whatever bytes the prompt holds, the URL [generate_image]
    requests is made of unreserved characters, slashes, the colon of the
    scheme and percent escapes only: the prompt can add neither a query
    string, nor a fragment, nor a space to it. *)
Theorem url_of_is_escaped (prompt : string) :
  all_chars url_char (url_of prompt) = true
  /\ Str.lacks "?" (url_of prompt) = true
  /\ Str.lacks "&" (url_of prompt) = true
  /\ Str.lacks "#" (url_of prompt) = true
  /\ Str.lacks " " (url_of prompt) = true.
Proof.
  assert (H : all_chars url_char (url_of prompt) = true).
  { unfold url_of. rewrite !all_chars_app, quote_url_chars. reflexivity. }
  split; [exact H|].
  repeat split; (eapply all_chars_lacks; [|exact H]); reflexivity.
Qed.

Lemma unquote_quote_byte (c : ascii) (s : string) :
  unquote (urllib.quote_byte c +:+ s) = String c (unquote s).
Proof. destruct c as [[] [] [] [] [] [] [] []]; reflexivity. Qed.

(** Decoding an encoded string gives the string back. *)
Lemma unquote_quote (s : string) : unquote (urllib.quote s) = s.
Proof.
  induction s as [|c s IH]; [reflexivity|].
  cbn [urllib.quote]. now rewrite unquote_quote_byte, IH.
Qed.

Lemma app_inj_r (a b s : string) : a +:+ s = b +:+ s -> a = b.
Proof.
  revert b. induction a as [|x a IH]; intros [|y b] H.
  - reflexivity.
  - apply (f_equal String.length) in H.
    rewrite app_empty_l, length_app_str in H. simpl in H. lia.
  - apply (f_equal String.length) in H.
    rewrite app_empty_l, length_app_str in H. simpl in H. lia.
  - rewrite !app_cons in H. injection H as -> H. f_equal. now apply IH.
Qed.

(** X7.  Two prompts that [generate_image] requests under the same URL are
    the same prompt: the encoding of the derived prompt loses nothing. *)
Theorem url_of_injective (p1 p2 : string) :
  url_of p1 = url_of p2 -> p1 = p2.
Proof.
  unfold url_of. intros H.
  do 2 apply (inj (String.app _)) in H.
  apply (f_equal unquote) in H. rewrite !unquote_quote in H.
  unfold enhanced_prompt_of in H. now apply app_inj_r in H.
Qed.

(** X5.  The endpoint sends one request per call.  Its query carries the
    width, height, steps and enhancement flag of the request as they came,
    without any check of their range, with the model [flux-pro] and the
    fixed settings; no [seed], [private] or [safe] parameter is ever
    sent, although the endpoint passes [safe=True]. *)
Theorem endpoint_query_parameters (request : ImageRequest) (w : World) :
  exists params,
    sent (snd (generate_image_endpoint request w))
    = sent w ++ [(url_of (prompt request), params)]
    /\ params
       = [("width", PInt (width request)); ("height", PInt (height request));
          ("model", PStr "flux-pro"); ("steps", PInt (steps request));
          ("cfg_scale", PInt 9); ("sampler", PStr "DPM++ SDE Karras");
          ("enhance", PBool (enhance request)); ("nologo", PBool true);
          ("negative_prompt",
           PStr "blurry, low quality, low resolution, watermark, signature, oversaturated, distorted, deformed, pixelated");
          ("upscale", PBool true); ("upscale_amount", PStr "2")]
    /\ ~ In "seed" (map fst params)
    /\ ~ In "private" (map fst params)
    /\ ~ In "safe" (map fst params).
Proof.
  exists (endpoint_params request). split; [|split; [reflexivity|]].
  - rewrite generate_image_endpoint_run.
    destruct (remote w _ _) as [msg | r]; [reflexivity|].
    destruct (_ && _); [reflexivity|].
    destruct (_ =? _)%Z; reflexivity.
  - repeat split; cbn; intuition discriminate.
Qed.

End RequestFacts.

Lemma url_of_injective_witness : "a red bicycle" = "a red bicycle".
Proof. apply (url_of_injective "a red bicycle" "a red bicycle"). reflexivity. Defined.

(** ** The names of the generated files *)

Section NameFacts.

Lemma all_hex_all_chars (s : string) : uuid.all_hex s = all_chars uuid.is_hex s.
Proof. induction s as [|c s IH]; [reflexivity|]. cbn. now rewrite IH. Qed.

Lemma all_chars_weaken (p q : ascii -> bool) (s : string) :
  (forall c, p c = true -> q c = true) ->
  all_chars p s = true -> all_chars q s = true.
Proof.
  intros Hpq. induction s as [|c s IH]; [reflexivity|].
  cbn [all_chars]. intros [Hc Hs]%andb_prop. now rewrite (Hpq c Hc), IH.
Qed.

Lemma str_uuid_chars (n : Z) : all_chars uuid_char (uuid.str n) = true.
Proof.
  assert (Hsub : forall a b,
             all_chars uuid_char (substring a b (uuid.hex_digits 32 n)) = true).
  { intros a b. apply (all_chars_weaken uuid.is_hex).
    - intros c Hc. unfold uuid_char. now rewrite Hc.
    - rewrite <- all_hex_all_chars. apply substring_all_hex, hex_digits_all_hex. }
  unfold uuid.str. cbn [Str.join]. rewrite !all_chars_app, !Hsub. reflexivity.
Qed.

Lemma str_length (n : Z) : String.length (uuid.str n) = 36.
Proof.
  unfold uuid.str. cbn [Str.join].
  rewrite !length_app_str, !substring_length
    by (rewrite hex_digits_length; lia).
  reflexivity.
Qed.

Lemma drop_split (n : nat) (s t : string) :
  n <= String.length s -> Str.drop n s = t -> exists p, s = p +:+ t.
Proof.
  revert s. induction n as [|n IH]; intros s Hn Ht.
  - exists "". now rewrite app_empty_l, <- Ht.
  - destruct s as [|c s]; [simpl in Hn; lia|].
    cbn [Str.drop] in Ht. simpl in Hn.
    destruct (IH s ltac:(lia) Ht) as [p ->]. exists (String c p).
    now rewrite app_cons.
Qed.

(** A string that ends with a suffix is something followed by it. *)
Lemma endswith_split (s suf : string) :
  Str.endswith s suf = true -> exists p, s = p +:+ suf.
Proof.
  unfold Str.endswith.
  destruct (Nat.leb_spec (String.length suf) (String.length s)); [|discriminate].
  intros Heq%String.eqb_eq. eapply drop_split; [|exact Heq]. lia.
Qed.

Lemma str_not_jpg (n : Z) : Str.endswith (uuid.str n) ".jpg" = false.
Proof.
  destruct (Str.endswith (uuid.str n) ".jpg") eqn:He; [|reflexivity].
  apply endswith_split in He as [p Hp].
  pose proof (str_uuid_chars n) as Hc. rewrite Hp, all_chars_app in Hc.
  apply andb_prop in Hc as [_ Hc]. discriminate Hc.
Qed.

(** The name of a generated file is a single clean path component. *)
Lemma next_filename_clean (w : World) : clean (next_filename w).
Proof.
  unfold next_filename. set (u := uuid.str (next_uuid w)).
  assert (Hlen : String.length (u +:+ ".jpg") = 40).
  { rewrite length_app_str. unfold u. now rewrite str_length. }
  split; [|repeat split; intros Heq; rewrite Heq in Hlen; discriminate].
  rewrite lacks_app. apply andb_true_intro. split; [|reflexivity].
  apply (all_chars_lacks uuid_char); [reflexivity | apply str_uuid_chars].
Qed.

Lemma get_app_r (a b : string) (i : nat) :
  get (String.length a + i) (a +:+ b) = get i b.
Proof. induction a as [|c a IH]; [reflexivity|]. rewrite app_cons. exact IH. Qed.

Lemma get_app_l (a b : string) (i : nat) :
  i < String.length a -> get i (a +:+ b) = get i a.
Proof.
  revert i. induction a as [|c a IH]; intros i Hi; [simpl in Hi; lia|].
  rewrite app_cons. destruct i as [|i]; [reflexivity|].
  cbn [get]. apply IH. simpl in Hi. lia.
Qed.

Lemma get_substring (a b i : nat) (s : string) :
  i < b -> get i (substring a b s) = get (a + i) s.
Proof.
  revert a b i. induction s as [|c s IH]; intros a b i Hi.
  - destruct a, b; try lia; now destruct i.
  - destruct a as [|a].
    + destruct b as [|b]; [lia|]. cbn [substring Nat.add].
      destruct i as [|i]; [reflexivity|]. cbn [get].
      rewrite IH by lia. reflexivity.
    + cbn [substring Nat.add get]. now apply IH.
Qed.

Lemma get_hex_digits (k i : nat) (n : Z) :
  i < k ->
  get i (uuid.hex_digits k n)
  = Some (uuid.hex_lower (Z.land (Z.shiftr n (4 * Z.of_nat (k - 1 - i))) 15)).
Proof.
  revert i. induction k as [|k IH]; intros i Hi; [lia|].
  cbn [uuid.hex_digits]. destruct i as [|i].
  - cbn [get]. now replace (S k - 1 - 0) with k by lia.
  - cbn [get]. rewrite IH by lia. now replace (S k - 1 - S i) with (k - 1 - i) by lia.
Qed.

(** The character after the second hyphen is the version digit. *)
Lemma str_version_digit (n : Z) :
  get 14 (uuid.str n)
  = Some (uuid.hex_lower (Z.land (Z.shiftr n 76) 15)).
Proof.
  unfold uuid.str. cbn [Str.join].
  set (hex := uuid.hex_digits 32 n).
  assert (Hl : forall a b, a + b <= 32 -> String.length (substring a b hex) = b).
  { intros a b Hab. apply substring_length. unfold hex.
    now rewrite hex_digits_length. }
  change 14 with (String.length (substring 0 8 hex) + 6) at 1.
  rewrite get_app_r. change 6 with (String.length "-" + 5) at 1.
  rewrite get_app_r.
  replace 5 with (String.length (substring 8 4 hex) + 1) at 1 by now rewrite Hl by lia.
  rewrite get_app_r. change 1 with (String.length "-" + 0) at 1.
  rewrite get_app_r.
  rewrite get_app_l by (rewrite Hl by lia; lia).
  rewrite get_substring by lia. unfold hex.
  rewrite get_hex_digits by lia. reflexivity.
Qed.

End NameFacts.

(** ** Generation, then retrieval *)

Section CompositionFacts.

Context `{Builtins}.

Lemma resolve_cwd (w w' : World) (p : string) :
  cwd_rel w' = cwd_rel w -> resolve w' p = resolve w p.
Proof. unfold resolve, getcwd. now intros ->. Qed.

(** Two clean names stored at the same place are the same name. *)
Lemma resolve_stored_inj (w : World) (a b : string) :
  clean a -> clean b ->
  resolve w (stored_path a) = resolve w (stored_path b) -> a = b.
Proof.
  intros Ha Hb Heq. pose proof (entry_of_stored w a Ha) as H1.
  rewrite Heq, (entry_of_stored w b Hb) in H1. congruence.
Qed.

Lemma generate_image_success_name (prompt : string)
    (model seed width height steps cfg_scale nologo private enhance safe : PyVal)
    (w w' : World) (name : string) :
  generate_image prompt model seed width height steps cfg_scale
    nologo private enhance safe w = (Val (Some name), w') ->
  name = next_filename w.
Proof.
  rewrite generate_image_run.
  destruct (remote w _ _) as [msg | r]; [discriminate|].
  destruct (_ && _); [discriminate|].
  destruct (_ =? _)%Z; (destruct (interrupted r); [discriminate|]);
    [|discriminate].
  congruence.
Qed.

(** What a successful call of the endpoint leaves behind. *)
Lemma endpoint_success_file (request : ImageRequest) (w w' : World)
    (name : string) :
  generate_image_endpoint request w
  = (Val [("file_path", "/image/" +:+ name)], w') ->
  exists r,
    remote w (url_of (prompt request)) (endpoint_params request) = Responded r
    /\ name = next_filename w
    /\ cwd_rel w' = cwd_rel w
    /\ remote w' = remote w
    /\ fs w' = <[resolve w (stored_path name) := content r]> (fs w).
Proof.
  intros Hrun. apply endpoint_success_inv in Hrun as (r & Hr & _ & _ & Hbody & Hw').
  exists r. injection Hbody as Hname. apply (inj (String.app _)) in Hname.
  rewrite Hname, Hw'. repeat split; assumption || reflexivity.
Qed.

(** X8.  Every file name [generate_image] returns has 40 characters, ends
    with [.jpg], is a single path component (no slash, not a dot name),
    and carries the version digit 4 of a random UUID as its fifteenth
    character. *)
Theorem generated_filename_shape (prompt : string)
    (model seed width height steps cfg_scale nologo private enhance safe : PyVal)
    (w w' : World) (name : string) :
  generate_image prompt model seed width height steps cfg_scale
    nologo private enhance safe w = (Val (Some name), w') ->
  String.length name = 40
  /\ Str.endswith name ".jpg" = true
  /\ clean name
  /\ get 14 name = Some "4"%char.
Proof.
  intros ->%generate_image_success_name.
  split; [|split; [|split]].
  - unfold next_filename. now rewrite length_app_str, str_length.
  - apply endswith_app.
  - apply next_filename_clean.
  - unfold next_filename. rewrite get_app_l by (rewrite str_length; lia).
    rewrite str_version_digit. unfold next_uuid. now rewrite UUID_version.
Qed.

(** X9.  After a successful call of the endpoint, [os.listdir] of the
    storage directory names the new file, so that the detail of a later 404
    lists it. *)
Theorem generated_file_is_listed (request : ImageRequest) (w w' : World)
    (name : string) :
  generate_image_endpoint request w
  = (Val [("file_path", "/image/" +:+ name)], w') ->
  name ∈ listdir w' generated_folder.
Proof.
  intros (r & _ & Hname & Hcwd & _ & Hfs)%endpoint_success_file.
  apply stored_in_listdir; [rewrite Hname; apply next_filename_clean|].
  rewrite Hfs, (resolve_cwd w w' _ Hcwd), lookup_insert_eq. eauto.
Qed.

(** X10.  The UUID of a generated file alone, without the extension, also
    retrieves it: [serve_image] appends [.jpg] and serves the bytes the
    remote server sent. *)
Theorem generated_file_served_by_uuid (request : ImageRequest) (w w' : World)
    (u : string) :
  generate_image_endpoint request w
  = (Val [("file_path", "/image/" +:+ u +:+ ".jpg")], w') ->
  exists resp r,
    serve_image u w' = (Val resp, w')
    /\ filename resp = u +:+ ".jpg"
    /\ remote w (url_of (prompt request)) (endpoint_params request) = Responded r
    /\ served_bytes w' resp = Some (content r).
Proof.
  intros (r & Hr & Hname & Hcwd & _ & Hfs)%endpoint_success_file.
  unfold next_filename in Hname. apply app_inj_r in Hname.
  assert (Hjpg : jpg_name u = u +:+ ".jpg").
  { unfold jpg_name. now rewrite Hname, str_not_jpg. }
  assert (Hfile : fs w' !! resolve w' (stored_path (u +:+ ".jpg"))
                  = Some (content r)).
  { rewrite Hfs, (resolve_cwd w w' _ Hcwd). apply lookup_insert_eq. }
  eexists _, r. rewrite serve_image_run, Hjpg.
  rewrite path_exists_file by (rewrite Hfile; eauto).
  repeat split; [exact Hr|]. unfold stored_path in *.
  unfold served_bytes. cbn [path]. now rewrite resolve_resolve.
Qed.

(** X11.  A second successful generation that draws another UUID leaves
    the image of the first in place: after both calls the first file still
    holds the body the remote server sent for the first request. *)
Theorem second_generation_keeps_first (request1 request2 : ImageRequest)
    (w w1 w2 : World) (name1 name2 : string) :
  generate_image_endpoint request1 w
  = (Val [("file_path", "/image/" +:+ name1)], w1) ->
  generate_image_endpoint request2 w1
  = (Val [("file_path", "/image/" +:+ name2)], w2) ->
  name1 <> name2 ->
  exists r1,
    remote w (url_of (prompt request1)) (endpoint_params request1) = Responded r1
    /\ fs w2 !! resolve w2 (posixpath.join generated_folder name1)
       = Some (content r1).
Proof.
  intros (r1 & Hr1 & Hn1 & Hcwd1 & _ & Hfs1)%endpoint_success_file.
  intros (r2 & _ & Hn2 & Hcwd2 & _ & Hfs2)%endpoint_success_file Hne.
  exists r1. split; [exact Hr1|].
  unfold stored_path in Hfs1, Hfs2.
  rewrite (resolve_cwd w1 w2 _ Hcwd2), Hfs2.
  rewrite lookup_insert_ne.
  - rewrite Hfs1, (resolve_cwd w w1 _ Hcwd1). apply lookup_insert_eq.
  - intros Heq. apply Hne. symmetry.
    apply (resolve_stored_inj w1); [| |exact Heq].
    + rewrite Hn2. apply next_filename_clean.
    + rewrite Hn1. apply next_filename_clean.
Qed.

End CompositionFacts.

(** ** Where [serve_image] looks *)

Section LookupFacts.

Context `{Builtins}.

Lemma child_shape (s : nat) (l : list string) (n : string) :
  s = 1 \/ s = 2 -> Forall clean l -> clean n ->
  Str.times "/" s +:+ Str.join "/" (l ++ [n])
  = dir_prefix (Str.times "/" s +:+ Str.join "/" l) +:+ n.
Proof.
  intros Hs Hl Hn. unfold dir_prefix. destruct l as [|x l].
  - cbn [app Str.join]. rewrite app_empty_r.
    destruct Hs as [-> | ->]; reflexivity.
  - destruct (join_clean_last (x :: l) ltac:(discriminate) Hl) as [Hne Hlast].
    rewrite endswith_char, last_is_app, Hlast by exact Hne.
    rewrite join_snoc by discriminate. now rewrite !app_assoc_str.
Qed.

(** A file stored under a clean name lies directly in the storage
    directory. *)
Lemma resolve_stored_shape (w : World) (n : string) :
  clean n ->
  resolve w (stored_path n) = dir_prefix (resolve w generated_folder) +:+ n.
Proof.
  intros Hn. rewrite stored_path_clean by exact Hn.
  unfold resolve, posixpath.abspath.
  change (posixpath.isabs generated_folder) with false.
  change (posixpath.isabs ("generated/" +:+ n)) with false. cbv iota.
  rewrite !join_relative by reflexivity.
  change (getcwd w) with (String "/" (cwd_rel w)).
  assert (Ha : exists a,
             (if String.eqb (String "/" (cwd_rel w)) ""
                 || Str.endswith (String "/" (cwd_rel w)) "/"
              then String "/" (cwd_rel w)
              else String "/" (cwd_rel w) +:+ "/") = String "/" a).
  { destruct (_ || _); eexists; [reflexivity | now rewrite app_cons]. }
  destruct Ha as [a ->].
  replace (String "/" a +:+ "generated/" +:+ n)
    with ((String "/" a +:+ generated_folder) +:+ String "/" n)
    by (now rewrite app_assoc_str).
  destruct (normpath_child (String "/" a +:+ generated_folder) n)
    as (s & l & Hs & Hl & -> & ->); [reflexivity | exact Hn | |].
  - rewrite app_assoc_str, !app_cons.
    apply (initial_slashes_stable a _ _ "g"). reflexivity.
  - now apply child_shape.
Qed.

Lemma jpg_name_ends (f : string) :
  exists p, jpg_name f = p +:+ ".jpg"
            /\ (Str.lacks "/" f = true -> Str.lacks "/" p = true).
Proof.
  unfold jpg_name. destruct (Str.endswith f ".jpg") eqn:He; cbn [negb].
  - apply endswith_split in He as [p ->]. exists p. split; [reflexivity|].
    rewrite lacks_app. now intros [? _]%andb_prop.
  - now exists f.
Qed.

(** The normalised form of a name without a slash is a clean component. *)
Lemma jpg_name_clean (f : string) :
  Str.lacks "/" f = true -> clean (jpg_name f).
Proof.
  intros Hf. destruct (jpg_name_ends f) as (p & -> & Hp).
  assert (Hlen : 4 <= String.length (p +:+ ".jpg")).
  { rewrite length_app_str. simpl. lia. }
  split; [|repeat split; intros Heq; rewrite Heq in Hlen; simpl in Hlen; lia].
  rewrite lacks_app, (Hp Hf). reflexivity.
Qed.

Lemma startswith_app_l (f x p : string) :
  Str.startswith f p = true -> Str.startswith (f +:+ x) p = true.
Proof.
  revert f. induction p as [|c p IH]; intros f Hf; [reflexivity|].
  destruct f as [|d f]; [discriminate|].
  rewrite app_cons. cbn [Str.startswith] in *.
  destruct (Ascii.eqb c d); [now apply IH | discriminate].
Qed.

(** X12.  The answer of [serve_image] is decided by whether anything
    exists at the path of the normalised name: it raises the
    [HTTPException] with status 404 exactly when [os.path.exists] is false
    of that path, it returns a file response for that path exactly when
    [os.path.exists] is true of it, be it a file or a directory, and it
    raises nothing else: the status 500 of its [except] branch is never
    produced. *)
Theorem serve_image_outcomes (f : string) (w : World) :
  let p := posixpath.join generated_folder (jpg_name f) in
  let answer := fst (serve_image f w) in
  (http_status answer = 404%Z <-> path_exists w p = false)
  /\ (answer = Val {| path := resolve w p; media_type := "image/jpeg";
                      filename := jpg_name f |}
      <-> path_exists w p = true)
  /\ (forall e, answer = Exc e -> exists detail, e = HTTPException 404 detail).
Proof.
  intros p answer. subst answer p. rewrite serve_image_run. unfold stored_path.
  destruct (path_exists w _); cbn [fst http_status].
  - split; [split; discriminate|]. split; [split; reflexivity|]. discriminate.
  - split; [split; reflexivity|]. split; [split; discriminate|].
    intros e [= <-]. eauto.
Qed.

(** X13.  For a name without a slash, which is all the route
    [/image/{filename}] lets through, the file [serve_image] looks for and
    serves lies directly in the storage directory, under the normalised
    name: the handler cannot be led out of that directory. *)
Theorem serve_image_confined (f : string) (w : World) :
  Str.lacks "/" f = true ->
  resolve w (posixpath.join generated_folder (jpg_name f))
  = dir_prefix (resolve w generated_folder) +:+ jpg_name f
  /\ forall resp,
       fst (serve_image f w) = Val resp ->
       path resp = dir_prefix (resolve w generated_folder) +:+ jpg_name f
       /\ filename resp = jpg_name f.
Proof.
  intros Hf. pose proof (resolve_stored_shape w _ (jpg_name_clean f Hf)) as Hshape.
  unfold stored_path in Hshape. split; [exact Hshape|].
  intros resp. rewrite serve_image_run. unfold stored_path. rewrite Hshape.
  destruct (path_exists w _); [|discriminate].
  cbn [fst]. now intros [= <-].
Qed.

(** X14.  [serve_image] itself does not keep to the storage directory:
    called with a name that begins with a slash it drops the directory,
    as [os.path.join] does, and serves the file at that absolute path with
    [.jpg] appended. *)
Theorem serve_image_absolute_name (f : string) (w : World) :
  Str.startswith f "/" = true ->
  is_Some (fs w !! posixpath.normpath (jpg_name f)) ->
  serve_image f w
  = (Val {| path := posixpath.normpath (jpg_name f);
            media_type := "image/jpeg"; filename := jpg_name f |}, w).
Proof.
  intros Hf Hfile.
  assert (Habs : Str.startswith (jpg_name f) "/" = true).
  { unfold jpg_name. destruct (negb _); [now apply startswith_app_l | exact Hf]. }
  assert (Hkey : resolve w (stored_path (jpg_name f))
                 = posixpath.normpath (jpg_name f)).
  { unfold stored_path, posixpath.join, posixpath.sep. rewrite Habs.
    unfold resolve, posixpath.abspath, posixpath.isabs, posixpath.sep.
    now rewrite Habs. }
  rewrite serve_image_run, Hkey.
  now rewrite path_exists_file by (rewrite Hkey; exact Hfile).
Qed.

End LookupFacts.

(** ** The further properties on the sample worlds *)

Lemma endpoint_interrupted_stream_witness :
  fst (generate_image_endpoint bicycle (sample_world (Responded broken_response)))
  = Exc (RequestException "Connection broken")
  /\ http_status
       (fst (generate_image_endpoint bicycle
               (sample_world (Responded broken_response)))) = 500%Z
  /\ fs (snd (generate_image_endpoint bicycle
                (sample_world (Responded broken_response))))
       !! resolve (sample_world (Responded broken_response))
            (posixpath.join generated_folder
               (next_filename (sample_world (Responded broken_response))))
     = Some (content broken_response).
Proof.
  apply (endpoint_interrupted_stream bicycle
           (sample_world (Responded broken_response)) broken_response
           "Connection broken"); reflexivity.
Defined.

Lemma endpoint_failure_keeps_files_witness :
  http_status
    (fst (generate_image_endpoint bicycle
            (sample_world (Unreachable "connection refused")))) = 500%Z
  /\ fs (snd (generate_image_endpoint bicycle
                (sample_world (Unreachable "connection refused"))))
     = fs (sample_world (Unreachable "connection refused"))
  /\ (fst (generate_image_endpoint bicycle
             (sample_world (Unreachable "connection refused")))
      = Exc (HTTPException 500 "Image generation failed")
      \/ exists r msg,
           remote (sample_world (Unreachable "connection refused"))
             (url_of (prompt bicycle)) (endpoint_params bicycle) = Responded r
           /\ ((400 <=? status_code r) && (status_code r <? 600))%Z = false
           /\ interrupted r = Some msg
           /\ fst (generate_image_endpoint bicycle
                     (sample_world (Unreachable "connection refused")))
              = Exc (RequestException msg)).
Proof.
  apply (endpoint_failure_keeps_files bicycle
           (sample_world (Unreachable "connection refused"))).
  left. exists "connection refused". reflexivity.
Defined.

Lemma generate_image_keeps_other_files_witness :
  fs (snd (generate_image "a red bicycle" (PStr "flux-pro") PNone (PInt 512)
             (PInt 512) (PInt 20) (PInt 9) (PBool true) PNone (PBool true)
             (PBool true) (sample_world (Responded ok_response))))
    !! "/srv/app/generated/old.jpg"
  = fs (sample_world (Responded ok_response)) !! "/srv/app/generated/old.jpg".
Proof.
  apply (generate_image_keeps_other_files "a red bicycle" (PStr "flux-pro") PNone
           (PInt 512) (PInt 512) (PInt 20) (PInt 9) (PBool true) PNone
           (PBool true) (PBool true)
           (sample_world (Responded ok_response))
           "/srv/app/generated/old.jpg").
  vm_compute. discriminate.
Defined.

Lemma generated_filename_shape_witness :
  String.length sample_name = 40
  /\ Str.endswith sample_name ".jpg" = true
  /\ clean sample_name
  /\ get 14 sample_name = Some "4"%char.
Proof.
  apply (generated_filename_shape "a red bicycle" (PStr "flux-pro") PNone
           (PInt 512) (PInt 512) (PInt 20) (PInt 9) (PBool true) PNone
           (PBool true) (PBool true)
           (sample_world (Responded ok_response)) sample_generated
           sample_name).
  vm_compute. reflexivity.
Defined.

Lemma generated_file_is_listed_witness :
  sample_name ∈ listdir sample_generated generated_folder.
Proof.
  apply (generated_file_is_listed bicycle
           (sample_world (Responded ok_response)) sample_generated
           sample_name).
  vm_compute. reflexivity.
Defined.

Lemma generated_file_served_by_uuid_witness :
  exists resp r,
    @serve_image plain_repr "00112233-4455-4677-8899-aabbccddeeff" sample_generated
    = (Val resp, sample_generated)
    /\ filename resp = "00112233-4455-4677-8899-aabbccddeeff" +:+ ".jpg"
    /\ remote (sample_world (Responded ok_response))
         (url_of (prompt bicycle)) (endpoint_params bicycle) = Responded r
    /\ served_bytes sample_generated resp = Some (content r).
Proof.
  apply (@generated_file_served_by_uuid plain_repr bicycle
           (sample_world (Responded ok_response)) sample_generated
           "00112233-4455-4677-8899-aabbccddeeff").
  vm_compute. reflexivity.
Defined.

Lemma second_generation_keeps_first_witness :
  exists r1,
    remote (sample_world (Responded ok_response))
      (url_of (prompt bicycle)) (endpoint_params bicycle) = Responded r1
    /\ fs (snd (generate_image_endpoint bicycle sample_generated))
         !! resolve (snd (generate_image_endpoint bicycle sample_generated))
              (posixpath.join generated_folder sample_name)
       = Some (content r1).
Proof.
  apply (second_generation_keeps_first bicycle bicycle
           (sample_world (Responded ok_response)) sample_generated
           (snd (generate_image_endpoint bicycle sample_generated))
           sample_name "00000000-0000-4000-8000-000000000000.jpg").
  - vm_compute. reflexivity.
  - vm_compute. reflexivity.
  - discriminate.
Defined.

Lemma serve_image_confined_witness :
  resolve (sample_world (Responded ok_response))
    (posixpath.join generated_folder (jpg_name "old"))
  = dir_prefix (resolve (sample_world (Responded ok_response)) generated_folder)
    +:+ jpg_name "old"
  /\ forall resp,
       fst (@serve_image plain_repr "old" (sample_world (Responded ok_response)))
       = Val resp ->
       path resp
       = dir_prefix (resolve (sample_world (Responded ok_response))
                       generated_folder) +:+ jpg_name "old"
       /\ filename resp = jpg_name "old".
Proof.
  apply (@serve_image_confined plain_repr "old"
           (sample_world (Responded ok_response))).
  reflexivity.
Defined.

Lemma serve_image_absolute_name_witness :
  @serve_image plain_repr "/etc/secret" outside_world
  = (Val {| path := posixpath.normpath (jpg_name "/etc/secret");
            media_type := "image/jpeg"; filename := jpg_name "/etc/secret" |},
     outside_world).
Proof.
  apply (@serve_image_absolute_name plain_repr "/etc/secret" outside_world).
  - reflexivity.
  - vm_compute. eexists. reflexivity.
Defined.
